(** * The MPPI optimizer (optimizer.cpp) as a shallow embedding

    The member functions of [mppi::Optimizer] are embedded as functions on an
    explicit [Optimizer] record.  Conventions:

    - a C++ [double] is read as a real number ([R]); rounding, infinities and
      NaN are outside the model, so a division whose divisor may be zero is
      guarded by a hypothesis in every theorem that depends on its value;
    - a tensor is a nested list in row-major order: [(B, H, C)] is a list of
      [B] matrices, each a list of [H] rows of [C] numbers;
    - [size_t] is a 64-bit unsigned integer, modelled as [Z] with its
      wrap-around written out;
    - a C++ exception is the [Throw] outcome of a call;
    - the function-local [static] of [Optimizer::fallback] lives in a
      [Process] record that every optimizer of the process shares;
    - collaborators whose code is not part of the optimizer (noise generator,
      critic manager, twist construction) are parameters of the model. *)

From Stdlib Require Import Reals Lra Lia ZArith Bool String List.
Import ListNotations.

Local Open Scope R_scope.

(** ** Numbers, tensors and outcomes *)

Definition tensor1 := list R.
Definition tensor2 := list (list R).
Definition tensor3 := list (list (list R)).

Definition zeros1 (n : nat) : tensor1 := repeat 0 n.
Definition zeros2 (n m : nat) : tensor2 := repeat (zeros1 m) n.
Definition zeros3 (b n m : nat) : tensor3 := repeat (zeros2 n m) b.

Definition full2 (n m : nat) (v : R) : tensor2 := repeat (repeat v m) n.

Inductive outcome (A : Type) : Type :=
| Return (a : A)
| Throw (what : string).
Arguments Return {A} a.
Arguments Throw {A} what.

Definition SIZE_MAX : Z := (2 ^ 64 - 1)%Z.

(** [counter++] on a [size_t]. *)
Definition size_t_incr (c : Z) : Z := ((c + 1) mod 2 ^ 64)%Z.

(** ** Settings *)

Module models.

Record ControlConstraints : Type := mkControlConstraints
  { vx : R; vy : R; wz : R }.

Record SamplingStd : Type := mkSamplingStd
  { std_vx : R; std_vy : R; std_wz : R }.

Record OptimizerSettings : Type := mkOptimizerSettings
  { base_constraints : ControlConstraints;
    constraints : ControlConstraints;
    sampling_std : SamplingStd;
    model_dt : R;
    temperature : R;
    batch_size : nat;
    time_steps : nat;
    iteration_count : nat;
    shift_control_sequence : bool;
    retry_attempt_limit : Z }.

Definition set_constraints (s : OptimizerSettings) (c : ControlConstraints)
  : OptimizerSettings :=
  mkOptimizerSettings (base_constraints s) c (sampling_std s) (model_dt s)
    (temperature s) (batch_size s) (time_steps s) (iteration_count s)
    (shift_control_sequence s) (retry_attempt_limit s).

Definition set_shift_control_sequence (s : OptimizerSettings) (b : bool)
  : OptimizerSettings :=
  mkOptimizerSettings (base_constraints s) (constraints s) (sampling_std s)
    (model_dt s) (temperature s) (batch_size s) (time_steps s)
    (iteration_count s) b (retry_attempt_limit s).

End models.
Import models.

(** ** [Optimizer::setOffset] *)

Definition eps : R := 1 / 1000000.

(** The effect of [setOffset] on the settings.  The two log lines are not
    part of the result; the first branch only warns. *)
Definition setOffset (controller_frequency : R) (s : OptimizerSettings)
  : outcome OptimizerSettings :=
  let controller_period := 1 / controller_frequency in
  if Rlt_dec controller_period (model_dt s) then
    Return s
  else if Rlt_dec (Rabs (controller_period - model_dt s)) eps then
    Return (set_shift_control_sequence s true)
  else
    Throw "Controller period more then model dt, set it equal to model dt".

(** ** [Optimizer::setSpeedLimit] *)

Section SpeedLimit.

(** [nav2_costmap_2d::NO_SPEED_LIMIT] comes from the costmap library. *)
Variable NO_SPEED_LIMIT : R.

Definition setSpeedLimit (speed_limit : R) (percentage : bool)
  (s : OptimizerSettings) : OptimizerSettings :=
  let base := base_constraints s in
  if Req_dec_T speed_limit NO_SPEED_LIMIT then
    set_constraints s (mkControlConstraints (vx base) (vy base) (wz base))
  else if percentage then
    let ratio := speed_limit / 100 in
    set_constraints s
      (mkControlConstraints (vx base * ratio) (vy base * ratio)
         (wz base * ratio))
  else
    let ratio := speed_limit / vx base in
    set_constraints s
      (mkControlConstraints speed_limit (vx base * ratio) (wz base * ratio)).

End SpeedLimit.

(** ** Elementwise helpers on tensors *)

Fixpoint map2 {A B C : Type} (f : A -> B -> C) (l : list A) (l' : list B)
  : list C :=
  match l, l' with
  | a :: t, b :: t' => f a b :: map2 f t t'
  | _, _ => []
  end.

Definition sum_list (l : list R) : R := fold_right Rplus 0 l.

Definition add1 : tensor1 -> tensor1 -> tensor1 := map2 Rplus.
Definition add2 : tensor2 -> tensor2 -> tensor2 := map2 add1.

Definition scale2 (w : R) (m : tensor2) : tensor2 :=
  map (map (fun x => x * w)) m.

(** Entry [(t, k)] of a matrix and entry [(b, t, k)] of a 3-D tensor. *)
Definition entry2 (m : tensor2) (t k : nat) : R := nth k (nth t m []) 0.
Definition entry3 (x : tensor3) (b t k : nat) : R := entry2 (nth b x []) t k.

(** [xt::sum(x, 0)]: the sum of the matrices of [x].  The shape of the sum of
    an empty batch is not kept by the list representation. *)
Definition sum_axis0 (x : tensor3) : tensor2 :=
  match x with
  | [] => []
  | m :: ms => fold_left add2 ms m
  end.

(** [xt::amin(c)]: the least entry ([0] stands for the empty case). *)
Definition amin (c : tensor1) : R :=
  match c with
  | [] => 0
  | x :: xs => fold_left Rmin xs x
  end.

(** [xt::clip(v, lo, hi)] on one entry. *)
Definition clip (lo hi v : R) : R :=
  if Rlt_dec v lo then lo else if Rlt_dec hi v then hi else v.

(** Replace entry [k] of a row by [f] of it; a row too short is unchanged. *)
Fixpoint upd_nth (k : nat) (f : R -> R) (row : list R) : list R :=
  match row, k with
  | [], _ => []
  | x :: xs, O => f x :: xs
  | x :: xs, S k' => x :: upd_nth k' f xs
  end.

(** The view of column [k] of a [(B, H, C)] tensor, and the assignment
    [view = f(view)] through it. *)
Definition col (k : nat) (x : tensor3) : tensor2 :=
  map (map (fun row => nth k row 0)) x.
Definition map_col (k : nat) (f : R -> R) (x : tensor3) : tensor3 :=
  map (map (upd_nth k f)) x.

(** The assignment [view(x, all, 0, k) = v]: entry [k] of row [0] of every
    batch member. *)
Definition set_first_row (k : nat) (v : R) (x : tensor3) : tensor3 :=
  map (fun m => match m with
                | [] => []
                | row :: rows => upd_nth k (fun _ => v) row :: rows
                end) x.

(** Replace row [i] of a matrix; out of range leaves it unchanged. *)
Fixpoint set_row (i : nat) (r : list R) (m : tensor2) : tensor2 :=
  match m, i with
  | [], _ => []
  | _ :: rows, O => r :: rows
  | row :: rows, S i' => row :: set_row i' r rows
  end.

(** ** Messages *)

Record Pose : Type := mkPose { pose_x : R; pose_y : R; pose_yaw : R }.

Record Twist : Type := mkTwist
  { linear_x : R; linear_y : R; angular_z : R }.

Definition Time : Type := (Z * Z)%type.

Record Path : Type := mkPath { stamp : Time; poses : list Pose }.

(** [utils::toTensor(plan)]: one [(x, y, yaw)] row per waypoint. *)
Definition toTensor (plan : Path) : tensor2 :=
  map (fun p => [pose_x p; pose_y p; pose_yaw p]) (poses plan).

(** ** Column layout of controls and velocities

    Modelled from the spec: [idx.setLayout(is_holonomic)] is not part of the
    optimizer file.  A control or velocity row is [(vx, wz)], or
    [(vx, vy, wz)] when the motion model is holonomic. *)

Definition idx_vx : nat := 0.
Definition idx_vy : nat := 1.
Definition idx_wz (is_holonomic : bool) : nat :=
  if is_holonomic then 2%nat else 1%nat.
Definition idx_dim (is_holonomic : bool) : nat :=
  if is_holonomic then 3%nat else 2%nat.

(** ** [models::State]

    Modelled from the spec: the class is not part of the optimizer file.  The
    dense [(B, H, D)] tensor is kept as its three column groups: the controls
    [(cvx, cvy?, cwz)], the velocities [(vx, vy?, wz)] and the time
    intervals. *)

Record State : Type := mkState
  { state_idx : bool;
    controls : tensor3;
    velocities : tensor3;
    time_intervals : tensor2;
    pose : Pose;
    speed : Twist }.

Definition default_State : State :=
  mkState false [] [] [] (mkPose 0 0 0) (mkTwist 0 0 0).

Definition State_setLayout (is_holonomic : bool) (s : State) : State :=
  mkState is_holonomic (controls s) (velocities s) (time_intervals s)
    (pose s) (speed s).

Definition State_reset (batch_size time_steps : nat) (s : State) : State :=
  mkState (state_idx s)
    (zeros3 batch_size time_steps (idx_dim (state_idx s)))
    (zeros3 batch_size time_steps (idx_dim (state_idx s)))
    (zeros2 batch_size time_steps)
    (pose s) (speed s).

Definition set_controls (s : State) (c : tensor3) : State :=
  mkState (state_idx s) c (velocities s) (time_intervals s) (pose s) (speed s).
Definition set_velocities (s : State) (v : tensor3) : State :=
  mkState (state_idx s) (controls s) v (time_intervals s) (pose s) (speed s).
Definition set_time_intervals (s : State) (d : tensor2) : State :=
  mkState (state_idx s) (controls s) (velocities s) d (pose s) (speed s).
Definition set_pose_speed (s : State) (p : Pose) (v : Twist) : State :=
  mkState (state_idx s) (controls s) (velocities s) (time_intervals s) p v.

(** [state.getTimeIntervals() = dt]: every entry becomes [dt]. *)
Definition fill_time_intervals (s : State) (dt : R) : State :=
  set_time_intervals s (map (map (fun _ => dt)) (time_intervals s)).

Definition getControlVelocitiesVX (s : State) : tensor2 :=
  col idx_vx (controls s).
Definition getControlVelocitiesVY (s : State) : tensor2 :=
  col idx_vy (controls s).
Definition getControlVelocitiesWZ (s : State) : tensor2 :=
  col (idx_wz (state_idx s)) (controls s).

(** ** [models::ControlSequence] *)

Record ControlSequence : Type := mkControlSequence
  { cs_idx : bool; data : tensor2 }.

Definition ControlSequence_setLayout (is_holonomic : bool)
  (c : ControlSequence) : ControlSequence :=
  mkControlSequence is_holonomic (data c).

Definition ControlSequence_reset (time_steps : nat) (c : ControlSequence)
  : ControlSequence :=
  mkControlSequence (cs_idx c) (zeros2 time_steps (idx_dim (cs_idx c))).

(** ** Motion models

    Modelled from the spec: the motion model classes are not part of the
    optimizer file.  [predict] gives, for one batch member, the velocity row
    at time [t] from its velocity and control rows at time [t - 1]; the
    sampled controls become the velocities.  [applyConstraints] is the
    model-specific clip: none for DiffDrive and Omni, and for Ackermann
    [|wz| <= |vx| / min_turning_r] on every control row. *)

Record MotionModel : Type := mkMotionModel
  { isHolonomic : bool;
    predict : list R -> list R -> list R;
    applyConstraints : State -> State }.

Definition DiffDriveMotionModel : MotionModel :=
  mkMotionModel false (fun _ ctl => ctl) (fun s => s).

Definition OmniMotionModel : MotionModel :=
  mkMotionModel true (fun _ ctl => ctl) (fun s => s).

Definition ackermann_row (min_turning_r : R) (row : list R) : list R :=
  let bound := Rabs (nth idx_vx row 0) / min_turning_r in
  upd_nth (idx_wz false) (clip (- bound) bound) row.

Definition AckermannMotionModel (min_turning_r : R) : MotionModel :=
  mkMotionModel false (fun _ ctl => ctl)
    (fun s => set_controls s (map (map (ackermann_row min_turning_r))
                                (controls s))).

(** The model chosen by [Optimizer::setMotionModel]; [min_turning_r] is what
    the Ackermann model reads from the parameter handler. *)
Definition make_motion_model (min_turning_r : R) (model : string)
  : outcome MotionModel :=
  if String.eqb model "DiffDrive" then Return DiffDriveMotionModel
  else if String.eqb model "Omni" then Return OmniMotionModel
  else if String.eqb model "Ackermann" then
    Return (AckermannMotionModel min_turning_r)
  else
    Throw
      "Model %s is not valid! Valid options are DiffDrive, Omni, or Ackermann".

(** ** [TrajectoryIntegrator::integrate]

    Modelled from the spec: the integrator is not part of the optimizer file.
    Row [0] of every trajectory is the pose of the state; row [t] is row
    [t - 1] advanced by the velocities of step [t - 1] over one [dt], the
    translation using the yaw before its update; [vy] is zero for a model
    that is not holonomic.  The result has one trajectory per batch member
    of the state: the tensor passed in is the output argument and is
    overwritten whole.  (The optimizer never gives
    [generated_trajectories_] a shape of its own, [reset()] does not
    allocate it, so it is the integrator that sizes its output.) *)

Fixpoint integrate_from (is_holonomic : bool) (dt x y yaw : R)
  (vs : tensor2) : tensor2 :=
  match vs with
  | [] => []
  | v :: rest =>
      let v_x := nth idx_vx v 0 in
      let v_y := if is_holonomic then nth idx_vy v 0 else 0 in
      let w_z := nth (idx_wz is_holonomic) v 0 in
      [x; y; yaw]
        :: integrate_from is_holonomic dt
             (x + (v_x * cos yaw - v_y * sin yaw) * dt)
             (y + (v_x * sin yaw + v_y * cos yaw) * dt)
             (yaw + w_z * dt) rest
  end.

Definition integrate (trajectories : tensor3) (s : OptimizerSettings)
  (state : State) (is_holonomic : bool) : tensor3 :=
  map (integrate_from is_holonomic (model_dt s) (pose_x (pose state))
         (pose_y (pose state)) (pose_yaw (pose state)))
    (velocities state).

(** ** [xt::squeeze] into a two-dimensional tensor

    [squeeze] drops every axis of length one.  The function under study
    returns an [xtensor<double, 2>], so the result exists only when exactly
    two axes are left. *)

Definition shape3 (x : tensor3) : nat * nat * nat :=
  (length x, length (hd [] x), length (hd [] (hd [] x))).

Definition squeeze_to_2d (x : tensor3) : option tensor2 :=
  let '(b, h, d) := shape3 x in
  match Nat.eqb b 1, Nat.eqb h 1, Nat.eqb d 1 with
  | true, false, false => Some (hd [] x)
  | false, true, false => Some (map (hd []) x)
  | false, false, true => Some (map (map (hd 0)) x)
  | _, _, _ => None
  end.

(** ** The process-wide state: the [static] of [Optimizer::fallback] *)

Record Process : Type := mkProcess { counter : Z }.

Record TwistStamped : Type := mkTwistStamped
  { twist : Twist; header_stamp : Time; header_frame_id : string }.

(** ** The optimizer *)

Section Model.

(** The noise generator: its state, [reset(settings, is_holonomic)] and
    [generate()], which returns the next sample of shape [(B, H, C)]. *)
Variable NoiseGenerator : Type.
Variable NoiseGenerator_reset :
  OptimizerSettings -> bool -> NoiseGenerator -> NoiseGenerator.
Variable NoiseGenerator_generate : NoiseGenerator -> tensor3 * NoiseGenerator.

(** The goal checker handed over by the host. *)
Variable GoalChecker : Type.

(** What the critics see.  They read the state, the trajectories and the
    path, and write the costs and the fail flag. *)
Record CriticData : Type := mkCriticData
  { cd_state : State;
    cd_trajectories : tensor3;
    cd_path : tensor2;
    cd_costs : tensor1;
    cd_fail_flag : bool;
    cd_goal_checker : option GoalChecker }.

(** [CriticManager::evalTrajectoriesScores]: the new costs and fail flag. *)
Variable evalTrajectoriesScores : CriticData -> tensor1 * bool.

(** [utils::toTwistStamped(row, idx, is_holonomic, stamp, frame)]. *)
Variable toTwistStamped :
  list R -> bool -> bool -> Time -> string -> TwistStamped.

Record Optimizer : Type := mkOptimizer
  { settings_ : OptimizerSettings;
    state_ : State;
    control_sequence_ : ControlSequence;
    costs_ : tensor1;
    generated_trajectories_ : tensor3;
    plan_ : tensor2;
    noise_generator_ : NoiseGenerator;
    motion_model_ : MotionModel;
    fail_flag : bool;
    goal_checker : option GoalChecker;
    base_frame_id : string;
    logger_ : list string }.

Definition with_settings (o : Optimizer) (s : OptimizerSettings) : Optimizer :=
  mkOptimizer s (state_ o) (control_sequence_ o) (costs_ o)
    (generated_trajectories_ o) (plan_ o) (noise_generator_ o)
    (motion_model_ o) (fail_flag o) (goal_checker o) (base_frame_id o)
    (logger_ o).

Definition with_state (o : Optimizer) (s : State) : Optimizer :=
  mkOptimizer (settings_ o) s (control_sequence_ o) (costs_ o)
    (generated_trajectories_ o) (plan_ o) (noise_generator_ o)
    (motion_model_ o) (fail_flag o) (goal_checker o) (base_frame_id o)
    (logger_ o).

Definition with_control_sequence (o : Optimizer) (c : ControlSequence)
  : Optimizer :=
  mkOptimizer (settings_ o) (state_ o) c (costs_ o)
    (generated_trajectories_ o) (plan_ o) (noise_generator_ o)
    (motion_model_ o) (fail_flag o) (goal_checker o) (base_frame_id o)
    (logger_ o).

Definition with_costs (o : Optimizer) (c : tensor1) : Optimizer :=
  mkOptimizer (settings_ o) (state_ o) (control_sequence_ o) c
    (generated_trajectories_ o) (plan_ o) (noise_generator_ o)
    (motion_model_ o) (fail_flag o) (goal_checker o) (base_frame_id o)
    (logger_ o).

Definition with_generated_trajectories (o : Optimizer) (t : tensor3)
  : Optimizer :=
  mkOptimizer (settings_ o) (state_ o) (control_sequence_ o) (costs_ o) t
    (plan_ o) (noise_generator_ o) (motion_model_ o) (fail_flag o)
    (goal_checker o) (base_frame_id o) (logger_ o).

Definition with_plan (o : Optimizer) (p : tensor2) : Optimizer :=
  mkOptimizer (settings_ o) (state_ o) (control_sequence_ o) (costs_ o)
    (generated_trajectories_ o) p (noise_generator_ o) (motion_model_ o)
    (fail_flag o) (goal_checker o) (base_frame_id o) (logger_ o).

Definition with_noise_generator (o : Optimizer) (n : NoiseGenerator)
  : Optimizer :=
  mkOptimizer (settings_ o) (state_ o) (control_sequence_ o) (costs_ o)
    (generated_trajectories_ o) (plan_ o) n (motion_model_ o) (fail_flag o)
    (goal_checker o) (base_frame_id o) (logger_ o).

Definition with_motion_model (o : Optimizer) (m : MotionModel) : Optimizer :=
  mkOptimizer (settings_ o) (state_ o) (control_sequence_ o) (costs_ o)
    (generated_trajectories_ o) (plan_ o) (noise_generator_ o) m
    (fail_flag o) (goal_checker o) (base_frame_id o) (logger_ o).

Definition with_critics_data (o : Optimizer) (fail : bool)
  (g : option GoalChecker) : Optimizer :=
  mkOptimizer (settings_ o) (state_ o) (control_sequence_ o) (costs_ o)
    (generated_trajectories_ o) (plan_ o) (noise_generator_ o)
    (motion_model_ o) fail g (base_frame_id o) (logger_ o).

Definition log (o : Optimizer) (line : string) : Optimizer :=
  mkOptimizer (settings_ o) (state_ o) (control_sequence_ o) (costs_ o)
    (generated_trajectories_ o) (plan_ o) (noise_generator_ o)
    (motion_model_ o) (fail_flag o) (goal_checker o) (base_frame_id o)
    (logger_ o ++ [line]).

Definition Optimizer_isHolonomic (o : Optimizer) : bool :=
  isHolonomic (motion_model_ o).

(** [Optimizer::setMotionModel] *)
Definition setMotionModel (min_turning_r : R) (model : string)
  (o : Optimizer) : outcome Optimizer :=
  match make_motion_model min_turning_r model with
  | Throw what => Throw what
  | Return m =>
      let o1 := with_motion_model o m in
      let o2 := with_state o1
                  (State_setLayout (Optimizer_isHolonomic o1) (state_ o1)) in
      Return (with_control_sequence o2
                (ControlSequence_setLayout (Optimizer_isHolonomic o2)
                   (control_sequence_ o2)))
  end.

(** [Optimizer::reset] *)
Definition reset (o : Optimizer) : Optimizer :=
  let s := settings_ o in
  let o1 := with_state o
              (State_reset (batch_size s) (time_steps s) (state_ o)) in
  let o2 := with_state o1 (fill_time_intervals (state_ o1) (model_dt s)) in
  let o3 := with_control_sequence o2
              (ControlSequence_reset (time_steps s) (control_sequence_ o2)) in
  let o4 := with_costs o3 (zeros1 (batch_size s)) in
  let o5 := with_noise_generator o4
              (NoiseGenerator_reset (settings_ o4) (Optimizer_isHolonomic o4)
                 (noise_generator_ o4)) in
  log o5 "Optimizer reset".

(** [Optimizer::fallback].  [counter] is the function-local [static]: it
    belongs to the process, not to the optimizer the call is made on. *)
Definition fallback (fail : bool) (p : Process) (o : Optimizer)
  : outcome bool * Process * Optimizer :=
  if negb fail then
    (Return false, mkProcess 0, o)
  else
    let o' := reset o in
    if (retry_attempt_limit (settings_ o') <? counter p)%Z then
      (Throw "Optimizer fail to compute path", mkProcess 0, o')
    else
      (Return true, mkProcess (size_t_incr (counter p)), o').

(** [Optimizer::prepare] *)
Definition prepare (robot_pose : Pose) (robot_speed : Twist) (plan : Path)
  (checker : GoalChecker) (o : Optimizer) : Optimizer :=
  let o1 := with_state o (set_pose_speed (state_ o) robot_pose robot_speed) in
  let o2 := with_plan o1 (toTensor plan) in
  let o3 := with_costs o2 (map (fun _ => 0) (costs_ o2)) in
  with_critics_data o3 false (Some checker).

(** [xt::roll(u, -1, 0)]: row [t] of the result is row [t + 1] of [u], the
    first row comes last. *)
Definition roll_back (u : tensor2) : tensor2 :=
  match u with
  | [] => []
  | row :: rows => rows ++ [row]
  end.

(** [Optimizer::shiftControlSequence].  The indices [-1] and [-2] are the
    last and the last but one row; with fewer than two rows [-2] is outside
    the tensor, which the model does not follow (it leaves the rolled tensor
    as it is). *)
Definition shiftControlSequence (o : Optimizer) : Optimizer :=
  let rolled := roll_back (data (control_sequence_ o)) in
  let h := length rolled in
  with_control_sequence o
    (mkControlSequence (cs_idx (control_sequence_ o))
       (set_row (h - 1) (nth (h - 2) rolled []) rolled)).

(** [Optimizer::generateNoisedControls]: the nominal sequence is added to
    every batch member of the noise. *)
Definition generateNoisedControls (o : Optimizer) : Optimizer :=
  let '(noise, generator) := NoiseGenerator_generate (noise_generator_ o) in
  let o1 := with_noise_generator o generator in
  with_state o1
    (set_controls (state_ o1) (map (add2 (data (control_sequence_ o1))) noise)).

(** [Optimizer::applyControlConstraints].  The views [vx] and [wz] are taken
    before the model-specific constraints run and written after them. *)
Definition applyControlConstraints (o : Optimizer) : Optimizer :=
  let c := constraints (settings_ o) in
  let st := state_ o in
  let k_vx := idx_vx in
  let k_wz := idx_wz (state_idx st) in
  let st1 :=
    if Optimizer_isHolonomic o then
      set_controls st (map_col idx_vy (clip (- vy c) (vy c)) (controls st))
    else st in
  let st2 := applyConstraints (motion_model_ o) st1 in
  let st3 :=
    set_controls st2 (map_col k_vx (clip (- vx c) (vx c)) (controls st2)) in
  let st4 :=
    set_controls st3 (map_col k_wz (clip (- wz c) (wz c)) (controls st3)) in
  with_state o st4.

(** [Optimizer::updateInitialStateVelocities]: the measured speed of the
    optimizer's own state goes to row [0] of the velocities of [state]. *)
Definition updateInitialStateVelocities (o : Optimizer) (state : State)
  : State :=
  let sp := speed (state_ o) in
  let s1 := set_velocities state
              (set_first_row idx_vx (linear_x sp) (velocities state)) in
  let s2 := set_velocities s1
              (set_first_row (idx_wz (state_idx s1)) (angular_z sp)
                 (velocities s1)) in
  if Optimizer_isHolonomic o then
    set_velocities s2 (set_first_row idx_vy (linear_y sp) (velocities s2))
  else s2.

(** One pass of the loop of [propagateStateVelocitiesFromInitials]: the
    velocity row [i + 1] of every batch member is predicted from its
    rows [i]. *)
Definition propagate_step (m : MotionModel) (state : State) (i : nat)
  : State :=
  set_velocities state
    (map2 (fun vel ctl =>
             set_row (S i) (predict m (nth i vel []) (nth i ctl [])) vel)
       (velocities state) (controls state)).

(** [Optimizer::propagateStateVelocitiesFromInitials]; [time_steps] is at
    least one wherever the optimizer runs. *)
Definition propagateStateVelocitiesFromInitials (o : Optimizer)
  (state : State) : State :=
  fold_left (propagate_step (motion_model_ o))
    (seq 0 (time_steps (settings_ o) - 1)) state.

(** [Optimizer::updateStateVelocities] *)
Definition updateStateVelocities (o : Optimizer) (state : State) : State :=
  propagateStateVelocitiesFromInitials o
    (updateInitialStateVelocities o state).

(** [Optimizer::generateNoisedTrajectories] *)
Definition generateNoisedTrajectories (o : Optimizer) : Optimizer :=
  let o1 := generateNoisedControls o in
  let o2 := applyControlConstraints o1 in
  let o3 := with_state o2 (updateStateVelocities o2 (state_ o2)) in
  with_generated_trajectories o3
    (integrate (generated_trajectories_ o3) (settings_ o3) (state_ o3)
       (Optimizer_isHolonomic o3)).

(** The weights of [Optimizer::updateControlSequence]. *)
Definition costs_normalized (costs : tensor1) : tensor1 :=
  map (fun c => c - amin costs) costs.

Definition exponents (temp : R) (costs : tensor1) : tensor1 :=
  map (fun c => exp (-1 / temp * c)) (costs_normalized costs).

Definition softmaxes (temp : R) (costs : tensor1) : tensor1 :=
  map (fun e => e / sum_list (exponents temp costs)) (exponents temp costs).

(** [Optimizer::updateControlSequence] *)
Definition updateControlSequence (o : Optimizer) : Optimizer :=
  let w := softmaxes (temperature (settings_ o)) (costs_ o) in
  with_control_sequence o
    (mkControlSequence (cs_idx (control_sequence_ o))
       (sum_axis0 (map2 (fun m w_b => scale2 w_b m) (controls (state_ o)) w))).

(** The critic manager sees the optimizer's tensors and writes the costs and
    the fail flag back. *)
Definition critics_data (o : Optimizer) : CriticData :=
  mkCriticData (state_ o) (generated_trajectories_ o) (plan_ o) (costs_ o)
    (fail_flag o) (goal_checker o).

Definition evalScores (o : Optimizer) : Optimizer :=
  let '(costs, fail) := evalTrajectoriesScores (critics_data o) in
  with_critics_data (with_costs o costs) fail (goal_checker o).

(** [Optimizer::optimize] *)
Definition optimize_once (o : Optimizer) : Optimizer :=
  updateControlSequence (evalScores (generateNoisedTrajectories o)).

Definition optimize (o : Optimizer) : Optimizer :=
  Nat.iter (iteration_count (settings_ o)) optimize_once o.

(** The loop [do { optimize(); } while (fallback(critics_data_.fail_flag))]
    of [Optimizer::evalControl].  Every pass through the body uses one unit
    of [fuel]; [None] means the fuel ran out before the loop was left. *)
Fixpoint retry_loop (fuel : nat) (p : Process) (o : Optimizer)
  : option (outcome unit * Process * Optimizer) :=
  match fuel with
  | O => None
  | S fuel' =>
      let o1 := optimize o in
      match fallback (fail_flag o1) p o1 with
      | (Throw what, p', o') => Some (Throw what, p', o')
      | (Return true, p', o') => retry_loop fuel' p' o'
      | (Return false, p', o') => Some (Return tt, p', o')
      end
  end.

(** [Optimizer::getControlFromSequenceAsTwist] *)
Definition getControlFromSequenceAsTwist (stamp : Time) (o : Optimizer)
  : TwistStamped :=
  let offset :=
    if shift_control_sequence (settings_ o) then 1%nat else 0%nat in
  toTwistStamped (nth offset (data (control_sequence_ o)) [])
    (cs_idx (control_sequence_ o)) (Optimizer_isHolonomic o) stamp
    (base_frame_id o).

(** [Optimizer::evalControl] *)
Definition evalControl (fuel : nat) (robot_pose : Pose) (robot_speed : Twist)
  (plan : Path) (checker : GoalChecker) (p : Process) (o : Optimizer)
  : option (outcome TwistStamped * Process * Optimizer) :=
  match retry_loop fuel p (prepare robot_pose robot_speed plan checker o) with
  | None => None
  | Some (Throw what, p', o') => Some (Throw what, p', o')
  | Some (Return _, p', o') =>
      let control := getControlFromSequenceAsTwist (stamp plan) o' in
      let o'' :=
        if shift_control_sequence (settings_ o') then shiftControlSequence o'
        else o' in
      Some (Return control, p', o'')
  end.

(** [Optimizer::getOptimizedTrajectory].  The local state is a fresh one of
    batch size one; the tensor allocated with the shape of
    [generated_trajectories_] is the integrator's output argument. *)
Definition getOptimizedTrajectory (o : Optimizer) : option tensor2 :=
  let s := settings_ o in
  let state0 := State_setLayout (Optimizer_isHolonomic o) default_State in
  let state1 := State_reset 1 (time_steps s) state0 in
  let state2 := set_controls state1 [data (control_sequence_ o)] in
  let state3 := fill_time_intervals state2 (model_dt s) in
  let state4 := updateStateVelocities o state3 in
  let trajectories :=
    integrate (generated_trajectories_ o) s state4 (Optimizer_isHolonomic o) in
  squeeze_to_2d trajectories.

End Model.

Arguments mkOptimizer {NoiseGenerator GoalChecker}.
Arguments settings_ {NoiseGenerator GoalChecker}.
Arguments state_ {NoiseGenerator GoalChecker}.
Arguments control_sequence_ {NoiseGenerator GoalChecker}.
Arguments costs_ {NoiseGenerator GoalChecker}.
Arguments generated_trajectories_ {NoiseGenerator GoalChecker}.
Arguments plan_ {NoiseGenerator GoalChecker}.
Arguments noise_generator_ {NoiseGenerator GoalChecker}.
Arguments motion_model_ {NoiseGenerator GoalChecker}.
Arguments fail_flag {NoiseGenerator GoalChecker}.
Arguments goal_checker {NoiseGenerator GoalChecker}.
Arguments base_frame_id {NoiseGenerator GoalChecker}.
Arguments logger_ {NoiseGenerator GoalChecker}.
Arguments with_settings {NoiseGenerator GoalChecker} o s.
Arguments with_state {NoiseGenerator GoalChecker} o s.
Arguments with_control_sequence {NoiseGenerator GoalChecker} o c.
Arguments with_costs {NoiseGenerator GoalChecker} o c.
Arguments with_critics_data {NoiseGenerator GoalChecker} o fail g.
Arguments Optimizer_isHolonomic {NoiseGenerator GoalChecker} o.
Arguments setMotionModel {NoiseGenerator GoalChecker} min_turning_r model o.
Arguments reset {NoiseGenerator} NoiseGenerator_reset {GoalChecker} o.
Arguments fallback {NoiseGenerator} NoiseGenerator_reset {GoalChecker} fail p o.
Arguments prepare {NoiseGenerator GoalChecker} robot_pose robot_speed plan
  checker o.
Arguments shiftControlSequence {NoiseGenerator GoalChecker} o.
Arguments generateNoisedControls {NoiseGenerator} NoiseGenerator_generate
  {GoalChecker} o.
Arguments applyControlConstraints {NoiseGenerator GoalChecker} o.
Arguments updateInitialStateVelocities {NoiseGenerator GoalChecker} o state.
Arguments propagateStateVelocitiesFromInitials {NoiseGenerator GoalChecker}
  o state.
Arguments updateStateVelocities {NoiseGenerator GoalChecker} o state.
Arguments generateNoisedTrajectories {NoiseGenerator} NoiseGenerator_generate
  {GoalChecker} o.
Arguments updateControlSequence {NoiseGenerator GoalChecker} o.
Arguments evalScores {NoiseGenerator GoalChecker} evalTrajectoriesScores o.
Arguments optimize_once {NoiseGenerator} NoiseGenerator_generate {GoalChecker}
  evalTrajectoriesScores o.
Arguments optimize {NoiseGenerator} NoiseGenerator_generate {GoalChecker}
  evalTrajectoriesScores o.
Arguments retry_loop {NoiseGenerator} NoiseGenerator_reset
  NoiseGenerator_generate {GoalChecker} evalTrajectoriesScores fuel p o.
Arguments getControlFromSequenceAsTwist {NoiseGenerator GoalChecker}
  toTwistStamped stamp o.
Arguments evalControl {NoiseGenerator} NoiseGenerator_reset
  NoiseGenerator_generate {GoalChecker} evalTrajectoriesScores toTwistStamped
  fuel robot_pose robot_speed plan checker p o.
Arguments getOptimizedTrajectory {NoiseGenerator GoalChecker} o.
Arguments cd_costs {GoalChecker} c.

(** ** Drivers and observations used by the statements *)

Section Drivers.

Context {NoiseGenerator GoalChecker : Type}.
Variable NoiseGenerator_reset :
  OptimizerSettings -> bool -> NoiseGenerator -> NoiseGenerator.

(** [n] consecutive induced failures: [fallback(true)] called [n] times on
    the same optimizer, with the outcome of every call. *)
Fixpoint induced_failures (n : nat) (p : Process)
  (o : Optimizer NoiseGenerator GoalChecker)
  : list (outcome bool) * Process * Optimizer NoiseGenerator GoalChecker :=
  match n with
  | O => ([], p, o)
  | S n' =>
      let '(r, p1, o1) := fallback NoiseGenerator_reset true p o in
      let '(rs, p2, o2) := induced_failures n' p1 o1 in
      (r :: rs, p2, o2)
  end.

End Drivers.

Definition is_fatal (r : outcome bool) : bool :=
  match r with
  | Throw _ => true
  | Return _ => false
  end.

(** A fatal error was raised by one of the calls. *)
Definition fatal_raised (rs : list (outcome bool)) : bool :=
  existsb is_fatal rs.

(** [reset()] writes one line to the log each time it runs, so the number of
    [reset()] calls an optimizer has made is the number of these lines. *)
Definition reset_calls {NoiseGenerator GoalChecker : Type}
  (o : Optimizer NoiseGenerator GoalChecker) : nat :=
  count_occ string_dec (logger_ o) "Optimizer reset"%string.

(** ** Concrete collaborators and a sample optimizer, to run the model *)

(** A generator that keeps one buffer and returns it as every sample. *)
Definition still_reset (s : OptimizerSettings) (is_holonomic : bool)
  (g : tensor3) : tensor3 :=
  zeros3 (batch_size s) (time_steps s) (idx_dim is_holonomic).
Definition still_generate (g : tensor3) : tensor3 * tensor3 := (g, g).

Definition critics_never_fail (d : CriticData unit) : tensor1 * bool :=
  (cd_costs d, false).
Definition critics_always_fail (d : CriticData unit) : tensor1 * bool :=
  (cd_costs d, true).

Definition row_toTwistStamped (row : list R) (idx : bool)
  (is_holonomic : bool) (stamp : Time) (frame : string) : TwistStamped :=
  mkTwistStamped
    (mkTwist (nth idx_vx row 0)
       (if is_holonomic then nth idx_vy row 0 else 0)
       (nth (idx_wz idx) row 0))
    stamp frame.

Definition sample_settings (limit : Z) : OptimizerSettings :=
  mkOptimizerSettings
    (mkControlConstraints (1 / 2) (1 / 4) (13 / 10))
    (mkControlConstraints (1 / 2) (1 / 4) (13 / 10))
    (mkSamplingStd (1 / 5) (1 / 5) 1)
    (1 / 10) (1 / 4) 2 3 1 true limit.

Definition sample_optimizer (frame : string) (limit : Z)
  : Optimizer tensor3 unit :=
  mkOptimizer (sample_settings limit)
    (State_reset 2 3 default_State)
    (mkControlSequence false [[1; 2]; [3; 4]; [5; 6]])
    [0; 0] [] [] (zeros3 2 3 2) DiffDriveMotionModel false None frame [].

Definition sample_plan : Path :=
  mkPath (5%Z, 0%Z) [mkPose 0 0 0; mkPose 1 0 0; mkPose 2 0 0].

Definition sample_prepared : Optimizer tensor3 unit :=
  prepare (mkPose 0 0 0) (mkTwist 0 0 0) sample_plan tt
    (sample_optimizer "base_link" 1).

Definition sample_optimized : Optimizer tensor3 unit :=
  optimize still_generate critics_never_fail sample_prepared.

(** The sample optimizer while the robot moves: measured speed
    [(vx, wz) = (1/2, 1/5)] at the pose [(1, 2, 0)]. *)
Definition sample_moving_optimizer : Optimizer tensor3 unit :=
  with_state (sample_optimizer "base_link" 1)
    (set_pose_speed (state_ (sample_optimizer "base_link" 1))
       (mkPose 1 2 0) (mkTwist (1 / 2) 0 (1 / 5))).

(** ** Predicates and reference formulas used by the statements *)

(** A matrix of [h] rows of [c] entries. *)
Definition shaped (h c : nat) (m : tensor2) : Prop :=
  length m = h /\ Forall (fun row => length row = c) m.

(** The softmax weight of batch member [b] as the specification writes it:
    [exp(-(c[b] - min c) / lam)] over the sum of these for the whole batch. *)
Definition spec_exponent (lam : R) (c : tensor1) (b : nat) : R :=
  exp (- (nth b c 0 - amin c) / lam).

Definition spec_weight (lam : R) (c : tensor1) (b : nat) : R :=
  spec_exponent lam c b
  / sum_list (map (spec_exponent lam c) (seq 0 (length c))).


(** The sample optimizer with [iteration_count] zero. *)
Definition sample_idle_optimizer : Optimizer tensor3 unit :=
  with_settings (sample_optimizer "base_link" 1)
    (mkOptimizerSettings
       (mkControlConstraints (1 / 2) (1 / 4) (13 / 10))
       (mkControlConstraints (1 / 2) (1 / 4) (13 / 10))
       (mkSamplingStd (1 / 5) (1 / 5) 1)
       (1 / 10) (1 / 4) 2 3 0 true 1).

(** One failed pass of the retry loop on the sample optimizer: the critics
    fail it and [fallback] resets it. *)
Definition sample_failed_pass (o : Optimizer tensor3 unit)
  : Optimizer tensor3 unit :=
  reset still_reset (optimize still_generate critics_always_fail o).

Definition sample_after_fatal : Optimizer tensor3 unit :=
  sample_failed_pass (sample_failed_pass (sample_failed_pass sample_prepared)).

Arguments cd_fail_flag {GoalChecker} c.
Arguments critics_data {NoiseGenerator GoalChecker} o.

Arguments with_motion_model {NoiseGenerator GoalChecker} o m.

(** The sample optimizer after [setMotionModel("Omni")]. *)
Definition sample_omni_optimizer : Optimizer tensor3 unit :=
  with_control_sequence
    (with_state
       (with_motion_model (sample_optimizer "base_link" 1) OmniMotionModel)
       (State_setLayout true (state_ (sample_optimizer "base_link" 1))))
    (ControlSequence_setLayout true
       (control_sequence_ (sample_optimizer "base_link" 1))).

(** * Properties *)

Lemma eps_pos : 0 < eps.
Proof. unfold eps. lra. Qed.

(** C8.  [setOffset(controller_frequency)], called with shifting still
    disabled and a nonzero frequency: it throws exactly when the controller
    period [1 / controller_frequency] exceeds [model_dt] by the tolerance
    [eps] or more; it enables [shift_control_sequence] exactly when the
    period is not below [model_dt] and equals it within the tolerance; and a
    period strictly smaller than [model_dt] is accepted with the settings,
    and so the disabled shifting, left as they were. *)
Theorem setOffset_cases (controller_frequency : R) (s : OptimizerSettings) :
  controller_frequency <> 0 ->
  shift_control_sequence s = false ->
  let controller_period := 1 / controller_frequency in
  ((exists what, setOffset controller_frequency s = Throw what)
   <-> model_dt s + eps <= controller_period) /\
  ((exists s', setOffset controller_frequency s = Return s'
               /\ shift_control_sequence s' = true)
   <-> model_dt s <= controller_period
       /\ Rabs (controller_period - model_dt s) < eps) /\
  (controller_period < model_dt s ->
   setOffset controller_frequency s = Return s).
Proof.
  intros _ Hoff controller_period. unfold setOffset.
  pose proof eps_pos as Heps.
  fold controller_period.
  destruct (Rlt_dec controller_period (model_dt s)) as [Hlt | Hge].
  - split; [|split].
    + split; [intros [what H]; discriminate H | intros H; lra].
    + split.
      * intros [s' [H Hs']]. inversion H; subst. congruence.
      * intros [H _]. lra.
    + reflexivity.
  - destruct (Rlt_dec (Rabs (controller_period - model_dt s)) eps)
      as [Hnear | Hfar].
    + split; [|split].
      * split; [intros [what H]; discriminate H|].
        intros H. rewrite Rabs_right in Hnear by lra. lra.
      * split; [intros _; split; [lra | exact Hnear]|].
        intros _. eexists. split; reflexivity.
      * intros H. lra.
    + split; [|split].
      * split; [|eauto].
        intros _. rewrite Rabs_right in Hfar by lra. lra.
      * split; [intros [s' [H _]]; discriminate H|].
        intros [_ H]. contradiction.
      * intros H. lra.
Qed.

Lemma setSpeedLimit_restores_base (NO_SPEED_LIMIT : R) (percentage : bool)
  (s : OptimizerSettings) :
  constraints (setSpeedLimit NO_SPEED_LIMIT NO_SPEED_LIMIT percentage s)
  = base_constraints s.
Proof.
  unfold setSpeedLimit.
  destruct (Req_dec_T NO_SPEED_LIMIT NO_SPEED_LIMIT) as [_ | n];
    [|now elim n].
  simpl. now destruct (base_constraints s).
Qed.

(** C4, the code at the failing input.  Base constraints
    [(vx, vy, wz) = (1/2, 1/4, 13/10)], [NO_SPEED_LIMIT = 0] and
    [setSpeedLimit(1/4, false)]: [vx] becomes the limit and [wz] is the base
    [wz] scaled by [limit / base.vx], but [vy] is computed from the base
    [vx], which gives [1/4], and not from the base [vy], which would give
    [1/8]. *)
Theorem setSpeedLimit_absolute_vy_from_base_vx :
  let s := sample_settings 1 in
  let base := base_constraints s in
  let speed_limit := 1 / 4 in
  let s' := setSpeedLimit 0 speed_limit false s in
  vx (constraints s') = speed_limit /\
  wz (constraints s') = wz base * (speed_limit / vx base) /\
  vy (constraints s') = vx base * (speed_limit / vx base) /\
  vy (constraints s') = 1 / 4 /\
  vy base * (speed_limit / vx base) = 1 / 8 /\
  vy (constraints s') <> vy base * (speed_limit / vx base).
Proof.
  cbv zeta. unfold setSpeedLimit.
  destruct (Req_dec_T (1 / 4) 0) as [H | _]; [lra|].
  simpl. repeat split; try lra.
Qed.

Lemma clip_bound (c v : R) : 0 <= c -> Rabs (clip (- c) c v) <= c.
Proof.
  intros Hc. unfold clip.
  destruct (Rlt_dec v (- c)) as [Hlo | Hlo].
  - rewrite Rabs_Ropp, Rabs_right; lra.
  - destruct (Rlt_dec c v) as [Hhi | Hhi].
    + rewrite Rabs_right; lra.
    + apply Rabs_le. lra.
Qed.

Lemma nth_upd_nth_other (j k : nat) (f : R -> R) (row : list R) :
  j <> k -> nth k (upd_nth j f row) 0 = nth k row 0.
Proof.
  revert j k. induction row as [|x xs IH]; intros j k Hjk.
  - now destruct j.
  - destruct j as [|j], k as [|k]; simpl; try reflexivity.
    + now elim Hjk.
    + apply IH. lia.
Qed.

Lemma nth_upd_nth_same (k : nat) (f : R -> R) (row : list R) :
  nth k (upd_nth k f row) 0
  = if Nat.ltb k (length row) then f (nth k row 0) else 0.
Proof.
  revert k. induction row as [|x xs IH]; intros k.
  - now destruct k.
  - destruct k as [|k]; simpl; [reflexivity|]. apply IH.
Qed.

Lemma length_upd_nth (k : nat) (f : R -> R) (row : list R) :
  length (upd_nth k f row) = length row.
Proof.
  revert k. induction row as [|x xs IH]; intros k.
  - now destruct k.
  - destruct k as [|k]; simpl; [reflexivity|]. now rewrite IH.
Qed.

Lemma col_map_col_other (j k : nat) (f : R -> R) (x : tensor3) :
  j <> k -> col k (map_col j f x) = col k x.
Proof.
  intros Hjk. unfold col, map_col. rewrite map_map.
  apply map_ext. intros m. rewrite map_map.
  apply map_ext. intros row. now apply nth_upd_nth_other.
Qed.

Lemma col_map_col_same (k : nat) (f : R -> R) (P : R -> Prop) (x : tensor3) :
  (forall v, P (f v)) -> P 0 ->
  Forall (Forall P) (col k (map_col k f x)).
Proof.
  intros Hf H0. unfold col, map_col. rewrite map_map.
  apply Forall_map, Forall_forall. intros m _. rewrite map_map.
  apply Forall_map, Forall_forall. intros row _.
  rewrite nth_upd_nth_same. destruct (Nat.ltb k (length row)); auto.
Qed.

Lemma make_motion_model_cases (min_turning_r : R) (model : string)
  (m : MotionModel) :
  make_motion_model min_turning_r model = Return m ->
  m = DiffDriveMotionModel \/ m = OmniMotionModel
  \/ m = AckermannMotionModel min_turning_r.
Proof.
  unfold make_motion_model.
  destruct (String.eqb model "DiffDrive");
    [intros H; inversion H; auto|].
  destruct (String.eqb model "Omni"); [intros H; inversion H; auto|].
  destruct (String.eqb model "Ackermann"); [intros H; inversion H; auto|].
  discriminate.
Qed.

Lemma length_map2 {A B C : Type} (f : A -> B -> C) (l : list A) :
  forall l' : list B, length l = length l' -> length (map2 f l l') = length l.
Proof.
  induction l as [|a l IH]; intros [|b l'] H; simpl in *; try lia.
  now rewrite IH by lia.
Qed.

Lemma nth_add1 (a : tensor1) : forall (b : tensor1) (k : nat),
  length a = length b -> nth k (add1 a b) 0 = nth k a 0 + nth k b 0.
Proof.
  induction a as [|x a IH]; intros [|y b] k H; simpl in *; try lia.
  - destruct k; lra.
  - destruct k as [|k]; [reflexivity|]. apply IH. lia.
Qed.

Lemma entry2_add2 (h c : nat) (m : tensor2) : forall (m' : tensor2) (t k : nat),
  shaped h c m -> shaped h c m' ->
  entry2 (add2 m m') t k = entry2 m t k + entry2 m' t k.
Proof.
  unfold entry2. revert h.
  induction m as [|r m IH]; intros h [|r' m'] t k [Hl Hf] [Hl' Hf'];
    simpl in *; try lia.
  - destruct t, k; simpl; lra.
  - inversion Hf; inversion Hf'; subst.
    destruct t as [|t]; [apply nth_add1; congruence|].
    apply (IH (length m)); split; auto; lia.
Qed.

Lemma shaped_add2 (h c : nat) (m : tensor2) : forall m' : tensor2,
  shaped h c m -> shaped h c m' -> shaped h c (add2 m m').
Proof.
  revert h. induction m as [|r m IH]; intros h [|r' m'] [Hl Hf] [Hl' Hf'];
    simpl in *; try lia.
  - split; [assumption | constructor].
  - inversion Hf; inversion Hf'; subst.
    destruct (IH (length m) m') as [Hl2 Hf2]; try (split; auto; lia).
    split; [simpl; f_equal; exact Hl2|].
    constructor; [|exact Hf2].
    unfold add1. rewrite length_map2; congruence.
Qed.

Lemma shaped_scale2 (h c : nat) (w : R) (m : tensor2) :
  shaped h c m -> shaped h c (scale2 w m).
Proof.
  intros [Hl Hf]. unfold scale2. split; [now rewrite length_map|].
  apply Forall_map. eapply Forall_impl; [|exact Hf].
  intros row Hrow. simpl. now rewrite length_map.
Qed.

Lemma entry2_scale2 (w : R) (m : tensor2) (t k : nat) :
  entry2 (scale2 w m) t k = entry2 m t k * w.
Proof.
  unfold entry2, scale2.
  change (@nil R) with (map (fun x => x * w) []) at 1. rewrite map_nth.
  replace 0 with (0 * w) at 1 by ring.
  now rewrite (map_nth (fun x => x * w)).
Qed.

Lemma entry2_fold_add2 (h c : nat) (ms : list tensor2) :
  forall (m : tensor2) (t k : nat),
  shaped h c m -> Forall (shaped h c) ms ->
  entry2 (fold_left add2 ms m) t k
  = entry2 m t k + sum_list (map (fun m' => entry2 m' t k) ms)
  /\ shaped h c (fold_left add2 ms m).
Proof.
  induction ms as [|m' ms IH]; intros m t k Hm Hms; simpl.
  - split; [lra | exact Hm].
  - inversion Hms; subst.
    destruct (IH (add2 m m') t k) as [He Hs];
      [now apply shaped_add2 | assumption |].
    split; [|exact Hs].
    rewrite He, (entry2_add2 h c) by assumption. lra.
Qed.

Lemma entry2_sum_axis0 (h c : nat) (x : tensor3) (t k : nat) :
  Forall (shaped h c) x ->
  entry2 (sum_axis0 x) t k = sum_list (map (fun m => entry2 m t k) x).
Proof.
  intros Hx. destruct x as [|m ms]; simpl.
  - unfold entry2. now destruct t, k.
  - inversion Hx; subst.
    now destruct (entry2_fold_add2 h c ms m t k).
Qed.

Lemma shaped_sum_axis0 (h c : nat) (x : tensor3) :
  x <> [] -> Forall (shaped h c) x -> shaped h c (sum_axis0 x).
Proof.
  intros Hne Hx. destruct x as [|m ms]; [now elim Hne|].
  inversion Hx; subst. simpl.
  now destruct (entry2_fold_add2 h c ms m 0%nat 0%nat).
Qed.

Lemma map2_as_seq {A B C : Type} (f : A -> B -> C) (da : A) (db : B)
  (l : list A) : forall l' : list B,
  length l = length l' ->
  map2 f l l' = map (fun i => f (nth i l da) (nth i l' db)) (seq 0 (length l)).
Proof.
  induction l as [|a l IH]; intros [|b l'] H; simpl in *; try lia;
    [reflexivity|].
  f_equal. rewrite <- seq_shift, map_map. apply IH. lia.
Qed.

Lemma map_as_seq {A B : Type} (f : A -> B) (da : A) (l : list A) :
  map f l = map (fun i => f (nth i l da)) (seq 0 (length l)).
Proof.
  induction l as [|a l IH]; [reflexivity|].
  simpl. f_equal. rewrite <- seq_shift, map_map. exact IH.
Qed.

Lemma Forall_map2 {A B C : Type} (P : C -> Prop) (f : A -> B -> C)
  (l : list A) : forall l' : list B,
  (forall a b, In a l -> P (f a b)) -> Forall P (map2 f l l').
Proof.
  induction l as [|a l IH]; intros [|b l'] Hf; simpl; constructor.
  - apply Hf. now left.
  - apply IH. intros a' b' Hin. apply Hf. now right.
Qed.

Lemma fold_left_Rmin_spec (xs : list R) : forall x : R,
  fold_left Rmin xs x <= x
  /\ Forall (fun y => fold_left Rmin xs x <= y) xs
  /\ (fold_left Rmin xs x = x \/ In (fold_left Rmin xs x) xs).
Proof.
  induction xs as [|y xs IH]; intros x; simpl.
  - repeat split; [lra | constructor | now left].
  - destruct (IH (Rmin x y)) as [Hle [Hall Hin]].
    pose proof (Rmin_l x y). pose proof (Rmin_r x y).
    repeat split.
    + lra.
    + constructor; [lra | exact Hall].
    + destruct Hin as [E | Hin]; [|right; now right].
      rewrite E. unfold Rmin. destruct (Rle_dec x y); [now left|].
      right. now left.
Qed.

Lemma amin_spec (c : tensor1) :
  c <> [] -> Forall (fun x => amin c <= x) c /\ In (amin c) c.
Proof.
  destruct c as [|x xs]; [intros H; now elim H|]. intros _.
  destruct (fold_left_Rmin_spec xs x) as [Hle [Hall Hin]]. simpl.
  split; [now constructor|].
  destruct Hin as [E | Hin]; [left; now rewrite E | now right].
Qed.

Lemma sum_list_pos (l : list R) :
  l <> [] -> Forall (fun x => 0 < x) l -> 0 < sum_list l.
Proof.
  intros Hne Hl. destruct l as [|x l]; [now elim Hne|].
  inversion Hl as [|? ? Hx Hl']; subst. simpl.
  assert (0 <= sum_list l); [|lra].
  clear -Hl'. induction Hl'; simpl; lra.
Qed.

Lemma sum_list_div (s : R) (l : list R) :
  sum_list (map (fun e => e / s) l) = sum_list l / s.
Proof.
  induction l as [|x l IH]; simpl; [lra|]. rewrite IH. lra.
Qed.

Lemma exponents_as_seq (lam : R) (c : tensor1) :
  exponents lam c = map (spec_exponent lam c) (seq 0 (length c)).
Proof.
  unfold exponents, costs_normalized. rewrite map_map.
  rewrite (map_as_seq _ 0 c). apply map_ext. intros b.
  unfold spec_exponent. f_equal. unfold Rdiv. ring.
Qed.

Lemma softmaxes_as_seq (lam : R) (c : tensor1) :
  softmaxes lam c = map (spec_weight lam c) (seq 0 (length c)).
Proof.
  unfold softmaxes. rewrite exponents_as_seq, map_map. reflexivity.
Qed.

Lemma length_softmaxes (lam : R) (c : tensor1) :
  length (softmaxes lam c) = length c.
Proof. now rewrite softmaxes_as_seq, length_map, length_seq. Qed.

Lemma nth_softmaxes (lam : R) (c : tensor1) (b : nat) :
  (b < length c)%nat -> nth b (softmaxes lam c) 0 = spec_weight lam c b.
Proof.
  intros Hb. rewrite softmaxes_as_seq.
  rewrite (nth_indep _ 0 (spec_weight lam c 0%nat))
    by now rewrite length_map, length_seq.
  rewrite map_nth, seq_nth by assumption. reflexivity.
Qed.

Lemma spec_exponents_sum_pos (lam : R) (c : tensor1) :
  c <> [] -> 0 < sum_list (map (spec_exponent lam c) (seq 0 (length c))).
Proof.
  intros Hne. apply sum_list_pos.
  - destruct c; [now elim Hne | discriminate].
  - apply Forall_map, Forall_forall. intros b _. apply exp_pos.
Qed.

Lemma length_roll_back (u : tensor2) : length (roll_back u) = length u.
Proof.
  destruct u as [|row rows]; [reflexivity|].
  simpl. rewrite length_app. simpl. lia.
Qed.

Lemma nth_roll_back (u : tensor2) (t : nat) :
  (S t < length u)%nat -> nth t (roll_back u) [] = nth (S t) u [].
Proof.
  destruct u as [|row rows]; simpl; [lia|]. intros Ht.
  apply app_nth1. lia.
Qed.

Lemma length_set_row (r : list R) (m : tensor2) : forall i : nat,
  length (set_row i r m) = length m.
Proof.
  induction m as [|row rows IH]; intros [|i]; simpl; auto.
Qed.

Lemma nth_set_row_same (r : list R) (m : tensor2) : forall i : nat,
  (i < length m)%nat -> nth i (set_row i r m) [] = r.
Proof.
  induction m as [|row rows IH]; intros [|i] Hi; simpl in *; try lia.
  - reflexivity.
  - apply IH. lia.
Qed.

Lemma nth_set_row_other (r : list R) (m : tensor2) : forall i t : nat,
  i <> t -> nth t (set_row i r m) [] = nth t m [].
Proof.
  induction m as [|row rows IH]; intros [|i] [|t] Hit; simpl;
    try reflexivity; try (now elim Hit).
  apply IH. lia.
Qed.

Lemma length_integrate_from (hol : bool) (dt : R) (vs : tensor2) :
  forall x y yaw : R, length (integrate_from hol dt x y yaw vs) = length vs.
Proof.
  induction vs as [|v vs IH]; intros x y yaw; simpl; [reflexivity|].
  now rewrite IH.
Qed.

Lemma rows_integrate_from (hol : bool) (dt : R) (vs : tensor2) :
  forall x y yaw : R,
  Forall (fun row => length row = 3%nat) (integrate_from hol dt x y yaw vs).
Proof.
  induction vs as [|v vs IH]; intros x y yaw; simpl; constructor; auto.
Qed.

Lemma length_repeat_zeros2 (n m : nat) : length (zeros2 n m) = n.
Proof. apply repeat_length. Qed.

Lemma hd_integrate_from (hol : bool) (dt x y yaw : R) (vs : tensor2) :
  vs <> [] -> length (hd [] (integrate_from hol dt x y yaw vs)) = 3%nat.
Proof. destruct vs; [intros H; now elim H | reflexivity]. Qed.

Lemma squeeze_to_2d_single (m : tensor2) :
  length m <> 1%nat -> length (hd [] m) <> 1%nat ->
  squeeze_to_2d [m] = Some m.
Proof.
  intros Hm Hr. unfold squeeze_to_2d, shape3.
  cbn [length hd Nat.eqb].
  destruct (Nat.eqb_spec (length m) 1); [contradiction|].
  destruct (Nat.eqb_spec (length (hd [] m)) 1); [contradiction|].
  reflexivity.
Qed.

(** ** Further properties of the settings functions *)

Lemma set_constraints_twice (s : OptimizerSettings)
  (c1 c2 : ControlConstraints) :
  set_constraints (set_constraints s c1) c2 = set_constraints s c2.
Proof. reflexivity. Qed.

Lemma setSpeedLimit_base (NO_SPEED_LIMIT speed_limit : R) (percentage : bool)
  (s : OptimizerSettings) :
  base_constraints (setSpeedLimit NO_SPEED_LIMIT speed_limit percentage s)
  = base_constraints s.
Proof.
  unfold setSpeedLimit.
  destruct (Req_dec_T speed_limit NO_SPEED_LIMIT); [reflexivity|].
  destruct percentage; reflexivity.
Qed.

Lemma setSpeedLimit_as_set_constraints (NO_SPEED_LIMIT speed_limit : R)
  (percentage : bool) (s : OptimizerSettings) :
  setSpeedLimit NO_SPEED_LIMIT speed_limit percentage s
  = set_constraints s
      (constraints (setSpeedLimit NO_SPEED_LIMIT speed_limit percentage s)).
Proof.
  unfold setSpeedLimit.
  destruct (Req_dec_T speed_limit NO_SPEED_LIMIT); [reflexivity|].
  destruct percentage; reflexivity.
Qed.

(** X1.  Speed limits do not accumulate: every call of [setSpeedLimit]
    computes the constraints from the base constraints, which it never
    changes, so a second limit gives the settings it would give alone, and
    [NO_SPEED_LIMIT] after any limit brings the base constraints back.
    Nothing but [constraints] is written. *)
Theorem setSpeedLimit_not_cumulative (NO_SPEED_LIMIT first second : R)
  (p1 p2 : bool) (s : OptimizerSettings) :
  let limited := setSpeedLimit NO_SPEED_LIMIT first p1 s in
  setSpeedLimit NO_SPEED_LIMIT second p2 limited
  = setSpeedLimit NO_SPEED_LIMIT second p2 s /\
  constraints (setSpeedLimit NO_SPEED_LIMIT NO_SPEED_LIMIT p2 limited)
  = base_constraints s /\
  base_constraints limited = base_constraints s /\
  set_constraints limited (constraints s) = set_constraints s (constraints s).
Proof.
  intros limited. unfold limited.
  split; [|split; [|split]].
  - rewrite (setSpeedLimit_as_set_constraints NO_SPEED_LIMIT first p1 s).
    unfold setSpeedLimit at 1 3. cbn [base_constraints set_constraints].
    destruct (Req_dec_T second NO_SPEED_LIMIT); [reflexivity|].
    destruct p2; reflexivity.
  - rewrite setSpeedLimit_restores_base. apply setSpeedLimit_base.
  - apply setSpeedLimit_base.
  - rewrite (setSpeedLimit_as_set_constraints NO_SPEED_LIMIT first p1 s).
    apply set_constraints_twice.
Qed.

(** X2.  A percentage limit between [0] and [100] (other than the
    [NO_SPEED_LIMIT] value) never raises a constraint above its base value
    and keeps nonnegative base constraints nonnegative. *)
Theorem setSpeedLimit_percentage_within_base (NO_SPEED_LIMIT speed_limit : R)
  (s : OptimizerSettings) :
  speed_limit <> NO_SPEED_LIMIT ->
  0 <= speed_limit <= 100 ->
  0 <= vx (base_constraints s) ->
  0 <= vy (base_constraints s) ->
  0 <= wz (base_constraints s) ->
  let c := constraints (setSpeedLimit NO_SPEED_LIMIT speed_limit true s) in
  0 <= vx c <= vx (base_constraints s) /\
  0 <= vy c <= vy (base_constraints s) /\
  0 <= wz c <= wz (base_constraints s).
Proof.
  intros Hne Hl Hx Hy Hz c. unfold c, setSpeedLimit.
  destruct (Req_dec_T speed_limit NO_SPEED_LIMIT) as [E | _];
    [contradiction|].
  cbn [constraints set_constraints vx vy wz].
  assert (Hr : 0 <= speed_limit / 100 <= 1) by lra.
  repeat split; nra.
Qed.

(** X3.  A negative [controller_frequency] is accepted without a word:
    its period is below any nonnegative [model_dt], so [setOffset] takes the
    first branch and returns the settings unchanged. *)
Theorem setOffset_negative_frequency (controller_frequency : R)
  (s : OptimizerSettings) :
  controller_frequency < 0 ->
  0 <= model_dt s ->
  setOffset controller_frequency s = Return s.
Proof.
  intros Hf Hdt. unfold setOffset.
  assert (Hp : 1 / controller_frequency < 0).
  { unfold Rdiv. rewrite Rmult_1_l. now apply Rinv_lt_0_compat. }
  destruct (Rlt_dec (1 / controller_frequency) (model_dt s)); [reflexivity|].
  lra.
Qed.

(** X4.  Acceptance by [setOffset] is monotone in the frequency: when a
    positive frequency is accepted (the call returns), every higher one is
    accepted too. *)
Theorem setOffset_accepts_higher_frequency (f f' : R)
  (s : OptimizerSettings) :
  0 < f <= f' ->
  (exists s1, setOffset f s = Return s1) ->
  exists s2, setOffset f' s = Return s2.
Proof.
  intros [Hf Hff'] [s1 Hok]. unfold setOffset in *.
  pose proof eps_pos as Heps.
  assert (Hp : 1 / f' <= 1 / f).
  { unfold Rdiv. rewrite !Rmult_1_l. apply Rinv_le_contravar; lra. }
  destruct (Rlt_dec (1 / f') (model_dt s)) as [|Hge']; [now eexists|].
  destruct (Rlt_dec (Rabs (1 / f' - model_dt s)) eps) as [|Hfar'];
    [now eexists|].
  exfalso. rewrite Rabs_right in Hfar' by lra.
  destruct (Rlt_dec (1 / f) (model_dt s)) as [|Hge]; [lra|].
  destruct (Rlt_dec (Rabs (1 / f - model_dt s)) eps) as [Hnear|];
    [|discriminate].
  rewrite Rabs_right in Hnear by lra. lra.
Qed.

(** ** Further properties of the softmax weights *)

Lemma amin_le (c : tensor1) (x : R) : In x c -> amin c <= x.
Proof.
  intros Hin. assert (Hne : c <> []) by (intros E; now rewrite E in Hin).
  destruct (amin_spec c Hne) as [Hall _].
  rewrite Forall_forall in Hall. now apply Hall.
Qed.

Lemma exponents_as_map (temp : R) (c : tensor1) :
  exponents temp c = map (fun x => exp (-1 / temp * (x - amin c))) c.
Proof. unfold exponents, costs_normalized. now rewrite map_map. Qed.

Lemma sum_list_ge_member (l : list R) (x : R) :
  Forall (fun y => 0 <= y) l -> In x l -> x <= sum_list l.
Proof.
  intros Hpos. induction l as [|y l IH]; intros Hin; [now elim Hin|].
  inversion Hpos as [|? ? Hy Hl]; subst.
  assert (0 <= sum_list l).
  { clear -Hl. induction Hl; simpl; lra. }
  destruct Hin as [E | Hin]; simpl; [lra|].
  specialize (IH Hl Hin). lra.
Qed.

(** X5.  The stabilisation by the least cost: with a positive temperature
    every exponent of [updateControlSequence] lies in [(0, 1]], the exponent
    of a member of least cost is exactly [1], and so the sum the weights are
    divided by is at least [1] for a nonempty batch. *)
Theorem exponents_stabilised (temp : R) (c : tensor1) :
  0 < temp ->
  Forall (fun e => 0 < e <= 1) (exponents temp c) /\
  (c <> [] -> In 1 (exponents temp c)) /\
  (c <> [] -> 1 <= sum_list (exponents temp c)).
Proof.
  intros Ht. rewrite exponents_as_map.
  assert (Hall : Forall (fun e => 0 < e <= 1)
                   (map (fun x => exp (-1 / temp * (x - amin c))) c)).
  { apply Forall_map, Forall_forall. intros x Hin.
    split; [apply exp_pos|].
    rewrite <- exp_0.
    assert (Hle : -1 / temp * (x - amin c) <= 0).
    { pose proof (amin_le c x Hin) as Hmin.
      assert (0 < / temp) by now apply Rinv_0_lt_compat.
      unfold Rdiv. nra. }
    destruct Hle as [Hlt | Heq]; [left; now apply exp_increasing|].
    rewrite Heq. right. reflexivity. }
  assert (Hone : c <> [] ->
                 In 1 (map (fun x => exp (-1 / temp * (x - amin c))) c)).
  { intros Hne. destruct (amin_spec c Hne) as [_ Hin].
    apply in_map_iff. exists (amin c). split; [|exact Hin].
    replace (-1 / temp * (amin c - amin c)) with 0 by (unfold Rdiv; ring).
    apply exp_0. }
  split; [exact Hall|]. split; [exact Hone|].
  intros Hne. apply sum_list_ge_member; [|now apply Hone].
  eapply Forall_impl; [|exact Hall]. intros e He. simpl in He. lra.
Qed.

Lemma fold_left_Rmin_shift (k : R) (xs : list R) : forall x : R,
  fold_left Rmin (map (fun y => y + k) xs) (x + k) = fold_left Rmin xs x + k.
Proof.
  induction xs as [|y xs IH]; intros x; simpl; [reflexivity|].
  rewrite <- IH. f_equal.
  unfold Rmin. destruct (Rle_dec (x + k) (y + k)), (Rle_dec x y);
    try reflexivity; lra.
Qed.

Lemma amin_shift (k : R) (c : tensor1) :
  c <> [] -> amin (map (fun x => x + k) c) = amin c + k.
Proof.
  destruct c as [|x xs]; [intros H; now elim H|]. intros _.
  simpl. apply fold_left_Rmin_shift.
Qed.

(** X6.  The weights depend on cost differences only: adding one constant
    to every cost of the batch leaves the softmax weights as they are. *)
Theorem softmaxes_shift_invariant (temp k : R) (c : tensor1) :
  softmaxes temp (map (fun x => x + k) c) = softmaxes temp c.
Proof.
  destruct c as [|x xs]; [reflexivity|].
  assert (He : exponents temp (map (fun y => y + k) (x :: xs))
               = exponents temp (x :: xs)).
  { rewrite !exponents_as_map, map_map.
    rewrite amin_shift by discriminate.
    apply map_ext. intros y. f_equal. ring. }
  unfold softmaxes. now rewrite He.
Qed.



(** X8.  A cheaper member never weighs less: with a positive temperature,
    for two members [a] and [b] of the batch, a cost of [a] at most that of
    [b] gives [a] a weight at least that of [b]. *)
Theorem softmaxes_antitone (temp : R) (c : tensor1) (a b : nat) :
  0 < temp ->
  (a < length c)%nat -> (b < length c)%nat ->
  nth a c 0 <= nth b c 0 ->
  nth b (softmaxes temp c) 0 <= nth a (softmaxes temp c) 0.
Proof.
  intros Ht Ha Hb Hab.
  assert (Hne : c <> []) by (destruct c; [simpl in Ha; lia | discriminate]).
  rewrite !nth_softmaxes by assumption.
  unfold spec_weight.
  pose proof (spec_exponents_sum_pos temp c Hne) as Hpos.
  apply Rmult_le_compat_r; [left; now apply Rinv_0_lt_compat|].
  unfold spec_exponent.
  assert (Hle : - (nth b c 0 - amin c) / temp <= - (nth a c 0 - amin c) / temp).
  { assert (0 < / temp) by now apply Rinv_0_lt_compat. unfold Rdiv. nra. }
  destruct Hle as [Hlt | Heq]; [left; now apply exp_increasing|].
  rewrite Heq. right. reflexivity.
Qed.





(** ** Helpers on rows and columns *)

Lemma clip_inside (c v : R) : Rabs v <= c -> clip (- c) c v = v.
Proof.
  intros Hv. unfold clip.
  assert (- c <= v <= c).
  { unfold Rabs in Hv. destruct (Rcase_abs v); lra. }
  destruct (Rlt_dec v (- c)); [lra|].
  destruct (Rlt_dec c v); [lra | reflexivity].
Qed.

Lemma upd_nth_fixed (f : R -> R) (row : list R) : forall k : nat,
  f (nth k row 0) = nth k row 0 -> upd_nth k f row = row.
Proof.
  induction row as [|x xs IH]; intros [|k] H; simpl in *;
    try reflexivity; [now rewrite H | now rewrite IH].
Qed.

Lemma map_col_fixed (k : nat) (f : R -> R) (x : tensor3) :
  Forall (Forall (fun v => f v = v)) (col k x) -> map_col k f x = x.
Proof.
  unfold col, map_col. intros H.
  rewrite <- (map_id x) at 2. apply map_ext_in. intros m Hm.
  rewrite <- (map_id m) at 2. apply map_ext_in. intros row Hrow.
  apply upd_nth_fixed.
  rewrite Forall_map, Forall_forall in H. specialize (H m Hm).
  rewrite Forall_map, Forall_forall in H. now apply H.
Qed.

Lemma set_controls_same (s : State) : set_controls s (controls s) = s.
Proof. now destruct s. Qed.

Lemma make_motion_model_accepts (min_turning_r : R) (model : string) :
  (exists m, make_motion_model min_turning_r model = Return m)
  <-> model = "DiffDrive"%string \/ model = "Omni"%string
      \/ model = "Ackermann"%string.
Proof.
  unfold make_motion_model.
  destruct (String.eqb_spec model "DiffDrive") as [E1 | N1];
    [split; eauto|].
  destruct (String.eqb_spec model "Omni") as [E2 | N2]; [split; eauto|].
  destruct (String.eqb_spec model "Ackermann") as [E3 | N3];
    [split; eauto|].
  split; [intros [m H]; discriminate H|].
  intros [H | [H | H]]; contradiction.
Qed.

Lemma make_motion_model_holonomic (min_turning_r : R) (model : string)
  (m : MotionModel) :
  make_motion_model min_turning_r model = Return m ->
  (isHolonomic m = true <-> model = "Omni"%string).
Proof.
  unfold make_motion_model.
  destruct (String.eqb_spec model "DiffDrive") as [E1 | N1].
  { intros H; inversion H; subst. split; discriminate. }
  destruct (String.eqb_spec model "Omni") as [E2 | N2].
  { intros H; inversion H; subst. split; reflexivity. }
  destruct (String.eqb_spec model "Ackermann") as [E3 | N3];
    [|discriminate].
  intros H; inversion H; subst. split; discriminate.
Qed.





Section Properties.

Context {NoiseGenerator GoalChecker : Type}.
Variable NoiseGenerator_reset :
  OptimizerSettings -> bool -> NoiseGenerator -> NoiseGenerator.
Variable NoiseGenerator_generate : NoiseGenerator -> tensor3 * NoiseGenerator.
Variable evalTrajectoriesScores : CriticData GoalChecker -> tensor1 * bool.
Variable toTwistStamped :
  list R -> bool -> bool -> Time -> string -> TwistStamped.

Local Abbreviation Opt := (Optimizer NoiseGenerator GoalChecker).
Local Abbreviation reset' := (reset NoiseGenerator_reset).
Local Abbreviation fallback' := (fallback NoiseGenerator_reset).
Local Abbreviation induced := (induced_failures NoiseGenerator_reset).
Local Abbreviation optimize_once' :=
  (optimize_once NoiseGenerator_generate evalTrajectoriesScores).
Local Abbreviation optimize' :=
  (optimize NoiseGenerator_generate evalTrajectoriesScores).
Local Abbreviation retry_loop' :=
  (retry_loop NoiseGenerator_reset NoiseGenerator_generate
     evalTrajectoriesScores).
Local Abbreviation evalControl' :=
  (evalControl NoiseGenerator_reset NoiseGenerator_generate
     evalTrajectoriesScores toTwistStamped).

Lemma reset_settings (o : Opt) : settings_ (reset' o) = settings_ o.
Proof. reflexivity. Qed.

Lemma reset_calls_reset (o : Opt) : reset_calls (reset' o) = S (reset_calls o).
Proof.
  unfold reset_calls, reset, log; simpl.
  rewrite count_occ_app; simpl.
  destruct (string_dec "Optimizer reset" "Optimizer reset") as [_ | n]; [lia | now elim n].
Qed.

Lemma fallback_settings (fail : bool) (p : Process) (o : Opt) :
  settings_ (snd (fallback' fail p o)) = settings_ o.
Proof.
  unfold fallback. destruct fail; simpl; [|reflexivity].
  destruct (Z.ltb _ _); reflexivity.
Qed.

Lemma fallback_true_resets (p : Process) (o : Opt) :
  reset_calls (snd (fallback' true p o)) = S (reset_calls o).
Proof.
  unfold fallback; simpl.
  destruct (Z.ltb _ _); simpl; apply reset_calls_reset.
Qed.

Lemma fallback_true_cases (p : Process) (o : Opt) :
  let L := retry_attempt_limit (settings_ o) in
  (L < counter p)%Z /\ (exists what, fst (fst (fallback' true p o)) = Throw what) /\ snd (fst (fallback' true p o)) = mkProcess 0 \/
  (counter p <= L)%Z /\ fst (fst (fallback' true p o)) = Return true /\ snd (fst (fallback' true p o)) = mkProcess (size_t_incr (counter p)).
Proof.
  unfold fallback; simpl.
  destruct (Z.ltb_spec (retry_attempt_limit (settings_ o)) (counter p)).
  - left. simpl. eauto.
  - right. simpl. auto.
Qed.

Lemma size_t_incr_bounds (c : Z) :
  (0 <= c)%Z -> (0 <= size_t_incr c <= c + 1)%Z.
Proof.
  intros Hc. unfold size_t_incr.
  split.
  - apply Z.mod_pos_bound. lia.
  - apply Z.mod_le; lia.
Qed.

Lemma size_t_incr_exact (c : Z) :
  (0 <= c < SIZE_MAX)%Z -> size_t_incr c = (c + 1)%Z.
Proof.
  unfold size_t_incr, SIZE_MAX. intros Hc. apply Z.mod_small. lia.
Qed.

Lemma induced_failures_unfold (n : nat) (p : Process) (o : Opt) :
  induced (S n) p o =
  (fst (fst (fallback' true p o))
     :: fst (fst (induced n (snd (fst (fallback' true p o)))
                    (snd (fallback' true p o)))),
   snd (fst (induced n (snd (fst (fallback' true p o)))
               (snd (fallback' true p o)))),
   snd (induced n (snd (fst (fallback' true p o)))
          (snd (fallback' true p o)))).
Proof.
  simpl. destruct (fallback' true p o) as [[r p1] o1]. simpl.
  destruct (induced n p1 o1) as [[rs p2] o2]. reflexivity.
Qed.

Lemma induced_failures_settings (n : nat) : forall (p : Process) (o : Opt),
  settings_ (snd (induced n p o)) = settings_ o.
Proof.
  induction n as [|n IH]; intros p o; [reflexivity|].
  rewrite induced_failures_unfold. simpl. rewrite IH.
  apply fallback_settings.
Qed.

Lemma induced_failures_reset_calls (n : nat) : forall (p : Process) (o : Opt),
  reset_calls (snd (induced n p o)) = (reset_calls o + n)%nat.
Proof.
  induction n as [|n IH]; intros p o; [simpl; lia|].
  rewrite induced_failures_unfold. simpl. rewrite IH.
  rewrite fallback_true_resets. lia.
Qed.

Lemma induced_failures_length (n : nat) : forall (p : Process) (o : Opt),
  length (fst (fst (induced n p o))) = n.
Proof.
  induction n as [|n IH]; intros p o; [reflexivity|].
  rewrite induced_failures_unfold. simpl. now rewrite IH.
Qed.

Lemma induced_failures_no_fatal (n : nat) : forall (p : Process) (o : Opt),
  (0 <= counter p)%Z ->
  (counter p + Z.of_nat n <= retry_attempt_limit (settings_ o) + 1)%Z ->
  fatal_raised (fst (fst (induced n p o))) = false.
Proof.
  induction n as [|n IH]; intros p o Hc Hn; [reflexivity|].
  rewrite induced_failures_unfold. simpl.
  destruct (fallback_true_cases p o)
    as [[Hlt _] | [Hle [Hr Hp]]]; [lia|].
  rewrite Hr. simpl. apply IH.
  - rewrite Hp. simpl. apply size_t_incr_bounds; assumption.
  - rewrite Hp, fallback_settings. simpl.
    pose proof (size_t_incr_bounds (counter p) Hc). lia.
Qed.

(** C2 (amended).  Starting from a cleared retry counter, [n] consecutive
    induced failures make exactly [n] calls of [reset()], one per call of
    [fallback(true)], and no fatal error is raised while [n] is at most
    [retry_attempt_limit]. *)
Theorem induced_failures_reset_per_call (n : nat) (p : Process) (o : Opt) :
  counter p = 0%Z ->
  reset_calls (snd (induced n p o)) = (reset_calls o + n)%nat /\
  ((Z.of_nat n <= retry_attempt_limit (settings_ o))%Z ->
   fatal_raised (fst (fst (induced n p o))) = false).
Proof.
  intros Hc. split.
  - apply induced_failures_reset_calls.
  - intros Hn. apply induced_failures_no_fatal; lia.
Qed.

Lemma optimize_once_settings (o : Opt) :
  settings_ (optimize_once' o) = settings_ o.
Proof.
  unfold optimize_once, updateControlSequence, evalScores. simpl.
  destruct (evalTrajectoriesScores _) as [costs fail]. simpl.
  unfold generateNoisedTrajectories, applyControlConstraints,
    generateNoisedControls. simpl.
  destruct (NoiseGenerator_generate _) as [noise g]. reflexivity.
Qed.

Lemma iter_optimize_once_settings (n : nat) (o : Opt) :
  settings_ (Nat.iter n optimize_once' o) = settings_ o.
Proof.
  induction n as [|n IH]; [reflexivity|].
  rewrite Nat.iter_succ, optimize_once_settings. exact IH.
Qed.

Lemma optimize_settings (o : Opt) : settings_ (optimize' o) = settings_ o.
Proof. apply iter_optimize_once_settings. Qed.

Lemma retry_loop_unfold (fuel : nat) (p : Process) (o : Opt) :
  retry_loop' (S fuel) p o =
  match fallback' (fail_flag (optimize' o)) p (optimize' o) with
  | (Throw what, p', o') => Some (Throw what, p', o')
  | (Return true, p', o') => retry_loop' fuel p' o'
  | (Return false, p', o') => Some (Return tt, p', o')
  end.
Proof. reflexivity. Qed.

Lemma retry_loop_settings (fuel : nat) :
  forall (p : Process) (o : Opt) r p' o',
  retry_loop' fuel p o = Some (r, p', o') -> settings_ o' = settings_ o.
Proof.
  induction fuel as [|fuel IH]; intros p o r p' o' H; [discriminate|].
  rewrite retry_loop_unfold in H.
  pose proof (fallback_settings (fail_flag (optimize' o)) p (optimize' o)) as Hs.
  destruct (fallback' _ p (optimize' o)) as [[res p1] o1].
  cbn [snd] in Hs. rewrite optimize_settings in Hs.
  destruct res as [[|]|what].
  - apply IH in H. congruence.
  - inversion H; subst. exact Hs.
  - inversion H; subst. exact Hs.
Qed.

Lemma retry_loop_step (fuel : nat) (p : Process) (o : Opt) :
  retry_loop' (S fuel) p o =
  if fail_flag (optimize' o) then
    if (retry_attempt_limit (settings_ o) <? counter p)%Z then
      Some (Throw "Optimizer fail to compute path", mkProcess 0,
            reset' (optimize' o))
    else
      retry_loop' fuel (mkProcess (size_t_incr (counter p)))
        (reset' (optimize' o))
  else Some (Return tt, mkProcess 0, optimize' o).
Proof.
  rewrite retry_loop_unfold. unfold fallback.
  destruct (fail_flag (optimize' o)); cbn [negb]; [|reflexivity].
  rewrite reset_settings, optimize_settings.
  destruct (retry_attempt_limit (settings_ o) <? counter p)%Z; reflexivity.
Qed.

(** The loop is left within [n + 1] passes as soon as [n] more increments
    take the counter above the limit. *)
Lemma retry_loop_within (n : nat) :
  forall (p : Process) (o : Opt) (extra : nat),
  (0 <= counter p)%Z ->
  (retry_attempt_limit (settings_ o) < SIZE_MAX)%Z ->
  (retry_attempt_limit (settings_ o) < counter p + Z.of_nat n)%Z ->
  exists r, retry_loop' (S (n + extra)) p o = Some r.
Proof.
  induction n as [|n IH]; intros p o extra Hc Hmax Hn;
    rewrite retry_loop_step;
    destruct (fail_flag (optimize' o)); eauto;
    destruct (Z.ltb_spec (retry_attempt_limit (settings_ o)) (counter p));
    eauto; [lia|].
  change (S n + extra)%nat with (S (n + extra)).
  apply IH; rewrite ?reset_settings, ?optimize_settings;
    cbn [counter]; try assumption.
  - apply size_t_incr_bounds; assumption.
  - rewrite size_t_incr_exact by lia. lia.
Qed.

(** C9.  For every initial value of the retry counter (a [size_t]) and
    every [retry_attempt_limit] below [SIZE_MAX], the retry loop of
    [evalControl], and [evalControl] itself, come to an end within
    [retry_attempt_limit + 2] passes through [optimize()], whatever the
    critics and the noise generator do: that much fuel always gives a
    result, which is a returned control or the fatal error. *)
Theorem evalControl_retry_loop_terminates (robot_pose : Pose)
  (robot_speed : Twist) (plan : Path) (checker : GoalChecker)
  (p : Process) (o : Opt) :
  (0 <= counter p <= SIZE_MAX)%Z ->
  (0 <= retry_attempt_limit (settings_ o) < SIZE_MAX)%Z ->
  let passes := (Z.to_nat (retry_attempt_limit (settings_ o)) + 2)%nat in
  (exists r,
     retry_loop' passes p (prepare robot_pose robot_speed plan checker o)
     = Some r) /\
  (exists r,
     evalControl' passes robot_pose robot_speed plan checker p o = Some r).
Proof.
  intros Hc HL passes.
  assert (Hloop : exists r,
            retry_loop' passes p (prepare robot_pose robot_speed plan checker o)
            = Some r).
  { unfold passes.
    replace (Z.to_nat (retry_attempt_limit (settings_ o)) + 2)%nat
      with (S (S (Z.to_nat (retry_attempt_limit (settings_ o))) + 0))%nat
      by lia.
    apply retry_loop_within;
      change (settings_ (prepare robot_pose robot_speed plan checker o))
        with (settings_ o); lia. }
  split; [exact Hloop|].
  destruct Hloop as [[[r p'] o'] Hr].
  unfold evalControl. rewrite Hr.
  destruct r as [u|what]; eauto.
Qed.

Lemma fatal_raised_cons (r : outcome bool) (rs : list (outcome bool)) :
  fatal_raised (r :: rs) = is_fatal r || fatal_raised rs.
Proof. reflexivity. Qed.

Lemma induced_failures_fatal (n : nat) : forall (p : Process) (o : Opt),
  (0 <= counter p)%Z ->
  (retry_attempt_limit (settings_ o) < SIZE_MAX)%Z ->
  (retry_attempt_limit (settings_ o) < counter p + Z.of_nat n)%Z ->
  fatal_raised (fst (fst (induced (S n) p o))) = true.
Proof.
  induction n as [|n IH]; intros p o Hc Hmax Hn;
    rewrite induced_failures_unfold;
    unfold fst at 1 2; rewrite fatal_raised_cons;
    destruct (fallback_true_cases p o)
      as [[Hlt [[what Hr] _]] | [Hle [Hr Hp]]];
    rewrite Hr; try reflexivity.
  - lia.
  - apply IH.
    + rewrite Hp. apply size_t_incr_bounds; assumption.
    + rewrite fallback_settings. assumption.
    + rewrite fallback_settings, Hp.
      change (counter (mkProcess (size_t_incr (counter p))))
        with (size_t_incr (counter p)).
      rewrite size_t_incr_exact by lia. lia.
Qed.

(** C10.  [reset()] leaves [settings_] unchanged while it zeroes the
    controls and velocities of the state (the time intervals are set to
    [model_dt]), the nominal control sequence and the costs, and hands the
    noise generator its own reset; so the constraints installed by
    [setSpeedLimit] are the same after a [reset()], after any [fallback]
    call, and after the whole retry loop. *)
Theorem reset_leaves_settings (o : Opt) :
  let s := settings_ o in
  let h := Optimizer_isHolonomic o in
  settings_ (reset' o) = s /\
  controls (state_ (reset' o))
    = zeros3 (batch_size s) (time_steps s) (idx_dim (state_idx (state_ o))) /\
  velocities (state_ (reset' o))
    = zeros3 (batch_size s) (time_steps s) (idx_dim (state_idx (state_ o))) /\
  time_intervals (state_ (reset' o))
    = full2 (batch_size s) (time_steps s) (model_dt s) /\
  data (control_sequence_ (reset' o))
    = zeros2 (time_steps s) (idx_dim (cs_idx (control_sequence_ o))) /\
  costs_ (reset' o) = zeros1 (batch_size s) /\
  noise_generator_ (reset' o) = NoiseGenerator_reset s h (noise_generator_ o) /\
  (forall (NO_SPEED_LIMIT speed_limit : R) (percentage : bool),
     let limited := setSpeedLimit NO_SPEED_LIMIT speed_limit percentage s in
     settings_ (reset' (with_settings o limited)) = limited) /\
  (forall (fail : bool) (p : Process),
     settings_ (snd (fallback' fail p o)) = s) /\
  (forall (fuel : nat) (p : Process),
     match retry_loop' fuel p o with
     | Some (_, _, o') => settings_ o' = s
     | None => True
     end).
Proof.
  intros s h.
  split; [reflexivity|]. split; [reflexivity|]. split; [reflexivity|].
  split.
  { unfold reset, fill_time_intervals, State_reset, zeros2, full2. simpl.
    rewrite map_repeat. f_equal. unfold zeros1. now rewrite map_repeat. }
  split; [reflexivity|]. split; [reflexivity|]. split; [reflexivity|].
  split; [reflexivity|].
  split.
  - intros fail p. apply fallback_settings.
  - intros fuel p.
    destruct (retry_loop' fuel p o) as [[[r p'] o']|] eqn:E; [|exact I].
    eapply retry_loop_settings; eassumption.
Qed.

Lemma idx_wz_not_vx (h : bool) : idx_vx <> idx_wz h.
Proof. destruct h; discriminate. Qed.

(** C5.  After [applyControlConstraints], with nonnegative constraints and
    one of the three motion models of [setMotionModel] (the state laid out
    for it): every entry of the [cvx] slice is bounded in absolute value by
    [constraints.vx], every entry of [cwz] by [constraints.wz], and, when
    the model is holonomic, every entry of [cvy] by [constraints.vy].  The
    bounds on [cvx] and [cwz] hold after the model-specific constraints of
    the Ackermann model, which run before the two slices are clipped. *)
Theorem applyControlConstraints_clips (min_turning_r : R) (model : string)
  (m : MotionModel) (o : Opt) :
  make_motion_model min_turning_r model = Return m ->
  motion_model_ o = m ->
  state_idx (state_ o) = isHolonomic m ->
  0 <= vx (constraints (settings_ o)) ->
  0 <= vy (constraints (settings_ o)) ->
  0 <= wz (constraints (settings_ o)) ->
  let c := constraints (settings_ o) in
  let st' := state_ (applyControlConstraints o) in
  Forall (Forall (fun v => Rabs v <= vx c)) (getControlVelocitiesVX st') /\
  Forall (Forall (fun v => Rabs v <= wz c)) (getControlVelocitiesWZ st') /\
  (isHolonomic m = true ->
   Forall (Forall (fun v => Rabs v <= vy c)) (getControlVelocitiesVY st')).
Proof.
  intros Hm Hmo Hidx Hvx Hvy Hwz c st'.
  assert (Hst : state_idx st' = state_idx (state_ o)
                /\ exists before,
                     controls st'
                     = map_col (idx_wz (state_idx (state_ o)))
                         (clip (- wz c) (wz c))
                         (map_col idx_vx (clip (- vx c) (vx c)) before)
                     /\ (isHolonomic m = true ->
                         before = map_col idx_vy (clip (- vy c) (vy c))
                                    (controls (state_ o)))).
  { unfold st', applyControlConstraints, Optimizer_isHolonomic.
    rewrite Hmo.
    destruct (make_motion_model_cases _ _ _ Hm) as [E | [E | E]];
      rewrite E; simpl; (split; [reflexivity|]);
      eexists; (split; [reflexivity|]); intros H;
      try discriminate H; reflexivity. }
  destruct Hst as [Hidx' [before [Hc Hbefore]]].
  assert (Habs0 : forall b, 0 <= b -> Rabs 0 <= b)
    by (intros b Hb; rewrite Rabs_R0; exact Hb).
  split; [|split].
  - unfold getControlVelocitiesVX. rewrite Hc.
    rewrite col_map_col_other by (intros E; exact (idx_wz_not_vx _ (eq_sym E))).
    apply col_map_col_same; [intros v; now apply clip_bound | now apply Habs0].
  - unfold getControlVelocitiesWZ. rewrite Hidx', Hc.
    apply col_map_col_same; [intros v; now apply clip_bound | now apply Habs0].
  - intros Hh. unfold getControlVelocitiesVY. rewrite Hc, (Hbefore Hh).
    rewrite Hidx, Hh.
    rewrite col_map_col_other by discriminate.
    rewrite col_map_col_other by discriminate.
    apply col_map_col_same; [intros v; now apply clip_bound | now apply Habs0].
Qed.

Lemma updateControlSequence_data (o : Opt) :
  data (control_sequence_ (updateControlSequence o))
  = sum_axis0 (map2 (fun m w_b => scale2 w_b m) (controls (state_ o))
                 (softmaxes (temperature (settings_ o)) (costs_ o))).
Proof. reflexivity. Qed.

(** C1.  After [updateControlSequence], for a nonempty batch of [(h, c)]
    control matrices with one cost each and a nonzero temperature: every
    entry of the nominal sequence is the sum over the batch of
    [w b * controls[b]], where [w b] is
    [exp(-(c[b] - min c) / temperature)] divided by the sum of these terms
    over the batch and [min c] is the least cost; the weights are
    nonnegative and sum to one, and the sequence keeps the shape [(h, c)]. *)
Theorem updateControlSequence_weighted_average (o : Opt) (h c : nat) :
  temperature (settings_ o) <> 0 ->
  costs_ o <> [] ->
  length (costs_ o) = length (controls (state_ o)) ->
  Forall (shaped h c) (controls (state_ o)) ->
  let costs := costs_ o in
  let w := spec_weight (temperature (settings_ o)) costs in
  let batch := seq 0 (length costs) in
  (Forall (fun x => amin costs <= x) costs /\ In (amin costs) costs) /\
  (forall t k,
     entry2 (data (control_sequence_ (updateControlSequence o))) t k
     = sum_list (map (fun b => w b * entry3 (controls (state_ o)) b t k)
                   batch)) /\
  shaped h c (data (control_sequence_ (updateControlSequence o))) /\
  Forall (fun b => 0 <= w b) batch /\
  sum_list (map w batch) = 1.
Proof.
  intros _ Hne Hlen Hshape costs w batch.
  assert (Hscaled : Forall (shaped h c)
            (map2 (fun m w_b => scale2 w_b m) (controls (state_ o))
               (softmaxes (temperature (settings_ o)) costs))).
  { apply Forall_map2. intros m w_b Hin. apply shaped_scale2.
    rewrite Forall_forall in Hshape. now apply Hshape. }
  pose proof (spec_exponents_sum_pos (temperature (settings_ o)) costs Hne)
    as Hpos.
  split; [now apply amin_spec|]. split; [|split; [|split]].
  - intros t k. rewrite updateControlSequence_data.
    rewrite (entry2_sum_axis0 h c) by exact Hscaled.
    assert (Hl : length (controls (state_ o))
                 = length (softmaxes (temperature (settings_ o)) (costs_ o)))
      by (rewrite length_softmaxes; symmetry; exact Hlen).
    rewrite (map2_as_seq _ [] 0 _ _ Hl).
    rewrite map_map. rewrite <- Hlen. fold costs. fold batch.
    apply f_equal, map_ext_in. intros b Hb.
    apply in_seq in Hb. rewrite entry2_scale2.
    rewrite nth_softmaxes by lia. unfold entry3, w. ring.
  - rewrite updateControlSequence_data. apply shaped_sum_axis0.
    + intros E. apply (f_equal (@length _)) in E.
      rewrite length_map2 in E
        by (rewrite length_softmaxes; symmetry; exact Hlen).
      change (length (controls (state_ o)) = 0%nat) in E.
      rewrite <- Hlen in E.
      apply length_zero_iff_nil in E. contradiction.
    + exact Hscaled.
  - apply Forall_forall. intros b _. unfold w, spec_weight.
    apply Rlt_le, Rdiv_lt_0_compat; [apply exp_pos | exact Hpos].
  - unfold w, batch.
    change (map (spec_weight (temperature (settings_ o)) costs)
              (seq 0 (length costs)))
      with (map (fun b => spec_exponent (temperature (settings_ o)) costs b
                          / sum_list (map (spec_exponent
                                             (temperature (settings_ o)) costs)
                                        (seq 0 (length costs))))
              (seq 0 (length costs))).
    rewrite <- (map_map (spec_exponent (temperature (settings_ o)) costs)
                  (fun e => e / sum_list (map (spec_exponent
                                             (temperature (settings_ o)) costs)
                                        (seq 0 (length costs))))).
    rewrite sum_list_div. field. lra.
Qed.

Lemma shiftControlSequence_rows (o : Opt) :
  let u := data (control_sequence_ o) in
  let u' := data (control_sequence_ (shiftControlSequence o)) in
  (2 <= length u)%nat ->
  length u' = length u /\
  (forall t, (t < length u - 1)%nat -> nth t u' [] = nth (S t) u []) /\
  nth (length u - 1) u' [] = nth (length u - 1) u [].
Proof.
  intros u u' Hh. unfold u', shiftControlSequence. simpl. fold u.
  rewrite length_roll_back.
  split; [|split].
  - now rewrite length_set_row, length_roll_back.
  - intros t Ht. rewrite nth_set_row_other by lia.
    apply nth_roll_back. lia.
  - rewrite nth_set_row_same by (rewrite length_roll_back; lia).
    rewrite nth_roll_back by lia. f_equal. lia.
Qed.

(** C6.  When [evalControl] returns a control, let [optimized] be the
    optimizer as the retry loop left it.  With [shift_control_sequence]
    enabled the control is built from row [1] of its nominal sequence [u],
    and afterwards, for a sequence of at least two rows, row [t] of the
    sequence is row [t + 1] of [u] for every [t] below the last index, and
    the last row is the last row of [u].  With shifting disabled the
    control is built from row [0] and the optimizer is returned as the loop
    left it. *)
Theorem evalControl_emits_then_shifts (fuel : nat) (robot_pose : Pose)
  (robot_speed : Twist) (plan : Path) (checker : GoalChecker)
  (p p' : Process) (o o' : Opt) (control : TwistStamped) :
  evalControl' fuel robot_pose robot_speed plan checker p o
  = Some (Return control, p', o') ->
  exists optimized : Opt,
    retry_loop' fuel p (prepare robot_pose robot_speed plan checker o)
    = Some (Return tt, p', optimized) /\
    let u := data (control_sequence_ optimized) in
    let u' := data (control_sequence_ o') in
    let emitted (offset : nat) :=
      toTwistStamped (nth offset u []) (cs_idx (control_sequence_ optimized))
        (Optimizer_isHolonomic optimized) (stamp plan)
        (base_frame_id optimized) in
    if shift_control_sequence (settings_ o) then
      control = emitted 1%nat /\
      ((2 <= length u)%nat ->
       length u' = length u /\
       (forall t, (t < length u - 1)%nat -> nth t u' [] = nth (S t) u []) /\
       nth (length u - 1) u' [] = nth (length u - 1) u [])
    else
      control = emitted 0%nat /\ o' = optimized.
Proof.
  unfold evalControl. intros H.
  destruct (retry_loop' fuel p (prepare robot_pose robot_speed plan checker o))
    as [[[r p1] o1]|] eqn:Hloop; [|discriminate H].
  destruct r as [[]|what]; [|discriminate H].
  inversion H as [[Hc Hp Ho]]. subst p1.
  exists o1. split; [reflexivity|].
  pose proof (retry_loop_settings _ _ _ _ _ _ Hloop) as Hs.
  change (settings_ (prepare robot_pose robot_speed plan checker o))
    with (settings_ o) in Hs.
  subst control o'. unfold getControlFromSequenceAsTwist. rewrite Hs.
  destruct (shift_control_sequence (settings_ o)).
  - split; [reflexivity|]. intros Hh.
    now apply shiftControlSequence_rows.
  - split; reflexivity.
Qed.

(** Row [0] of the velocities of the fresh local state, once the measured
    speed is written to it. *)
Lemma local_state_initial_row (o : Opt) (h : nat) (u : tensor2) (dt : R) :
  let hol := Optimizer_isHolonomic o in
  let sp := speed (state_ o) in
  velocities
    (updateInitialStateVelocities o
       (fill_time_intervals
          (set_controls
             (State_reset 1 (S h) (State_setLayout hol default_State)) [u])
          dt))
  = [(if hol then [linear_x sp; linear_y sp; angular_z sp]
      else [linear_x sp; angular_z sp])
       :: zeros2 h (idx_dim hol)].
Proof.
  intros hol sp. unfold updateInitialStateVelocities. fold hol sp.
  destruct hol; reflexivity.
Qed.

(** The propagation loop on a state of batch size one: after the passes
    [0 .. n - 1], row [0] is as it was and every row [t + 1] up to [n] is
    the prediction from the rows [t] of the velocities and of [u]. *)
Lemma single_member_propagate (m : MotionModel) (u : tensor2) (n : nat) :
  forall (s : State) (vel : tensor2),
  controls s = [u] ->
  velocities s = [vel] ->
  (n < length vel)%nat ->
  exists vel' : tensor2,
    velocities (fold_left (propagate_step m) (seq 0 n) s) = [vel'] /\
    controls (fold_left (propagate_step m) (seq 0 n) s) = [u] /\
    pose (fold_left (propagate_step m) (seq 0 n) s) = pose s /\
    length vel' = length vel /\
    nth 0 vel' [] = nth 0 vel [] /\
    (forall t, (t < n)%nat ->
       nth (S t) vel' [] = predict m (nth t vel' []) (nth t u [])).
Proof.
  induction n as [|n IH]; intros s vel Hc Hv Hn.
  - exists vel. repeat split; try assumption. intros t Ht. lia.
  - destruct (IH s vel Hc Hv) as [vel_n [Hv' [Hc' [Hp [Hl [H0 Hrows]]]]]];
      [lia|].
    rewrite seq_S, fold_left_app. cbn [fold_left Nat.add].
    set (s_n := fold_left (propagate_step m) (seq 0 n) s) in *.
    exists (set_row (S n) (predict m (nth n vel_n []) (nth n u [])) vel_n).
    unfold propagate_step, set_velocities.
    cbn [velocities controls pose]. rewrite Hv', Hc'. cbn [map2].
    split; [reflexivity|]. split; [reflexivity|]. split; [exact Hp|].
    split; [now rewrite length_set_row|].
    split; [rewrite nth_set_row_other by lia; exact H0|].
    intros t Ht.
    destruct (Nat.eq_dec t n) as [E | N].
    + subst t. rewrite nth_set_row_same by lia.
      rewrite nth_set_row_other by lia. reflexivity.
    + rewrite !nth_set_row_other by lia. apply Hrows. lia.
Qed.

Lemma make_motion_model_predict (min_turning_r : R) (model : string)
  (m : MotionModel) (vel ctl : list R) :
  make_motion_model min_turning_r model = Return m -> predict m vel ctl = ctl.
Proof.
  intros Hm.
  destruct (make_motion_model_cases _ _ _ Hm) as [E | [E | E]];
    rewrite E; reflexivity.
Qed.

(** C7.  [getOptimizedTrajectory], for a horizon of at least two steps.
    The local state has batch size one and its controls are the nominal
    sequence [u] alone.  Its single member has [time_steps] velocity rows:
    row [0] is the measured speed and every row [t + 1] is what the motion
    model predicts from the rows [t] of the velocities and of [u], which
    for the three motion models of [setMotionModel] is row [t] of [u]
    itself.  The result is the trajectory the integrator gives for these
    velocities from the pose of the local state, with [time_steps] rows of
    three entries [(x, y, yaw)]. *)
Theorem getOptimizedTrajectory_single_trajectory (o : Opt) :
  (2 <= time_steps (settings_ o))%nat ->
  let s := settings_ o in
  let hol := Optimizer_isHolonomic o in
  let u := data (control_sequence_ o) in
  let sp := speed (state_ o) in
  let state :=
    updateStateVelocities o
      (fill_time_intervals
         (set_controls
            (State_reset 1 (time_steps s) (State_setLayout hol default_State))
            [u])
         (model_dt s)) in
  controls state = [u] /\
  exists vel : tensor2,
    velocities state = [vel] /\
    length vel = time_steps s /\
    nth 0 vel []
    = (if hol then [linear_x sp; linear_y sp; angular_z sp]
       else [linear_x sp; angular_z sp]) /\
    (forall t, (S t < time_steps s)%nat ->
       nth (S t) vel []
       = predict (motion_model_ o) (nth t vel []) (nth t u [])) /\
    (forall min_turning_r model,
       make_motion_model min_turning_r model = Return (motion_model_ o) ->
       forall t, (S t < time_steps s)%nat -> nth (S t) vel [] = nth t u []) /\
    let trajectory :=
      integrate_from hol (model_dt s) (pose_x (pose default_State))
        (pose_y (pose default_State)) (pose_yaw (pose default_State)) vel in
    getOptimizedTrajectory o = Some trajectory /\
    length trajectory = time_steps s /\
    Forall (fun row => length row = 3%nat) trajectory.
Proof.
  intros Hh s hol u sp state.
  destruct (time_steps s) as [|h] eqn:Hts;
    [unfold s in Hts; rewrite Hts in Hh; lia|].
  assert (Hh1 : (1 <= h)%nat) by (unfold s in Hts; rewrite Hts in Hh; lia).
  pose proof (local_state_initial_row o h u (model_dt s)) as Hinit.
  cbv zeta in Hinit. fold hol sp in Hinit.
  set (row0 := if hol then [linear_x sp; linear_y sp; angular_z sp]
               else [linear_x sp; angular_z sp]) in *.
  set (initial :=
         updateInitialStateVelocities o
           (fill_time_intervals
              (set_controls
                 (State_reset 1 (S h) (State_setLayout hol default_State))
                 [u])
              (model_dt s))) in *.
  assert (Hci : controls initial = [u] /\ pose initial = pose default_State).
  { unfold initial, updateInitialStateVelocities.
    destruct (Optimizer_isHolonomic o); split; reflexivity. }
  destruct Hci as [Hci Hpi].
  destruct (single_member_propagate (motion_model_ o) u h initial
              (row0 :: zeros2 h (idx_dim hol)) Hci Hinit)
    as [vel [Hv [Hc [Hp [Hl [H0 Hrows]]]]]].
  { cbn [length]. rewrite length_repeat_zeros2. lia. }
  assert (Hstate : state = fold_left (propagate_step (motion_model_ o))
                             (seq 0 h) initial).
  { unfold state, updateStateVelocities,
      propagateStateVelocitiesFromInitials.
    fold s. rewrite Hts. cbn [Nat.sub]. rewrite Nat.sub_0_r.
    reflexivity. }
  rewrite <- Hstate in Hv, Hc, Hp.
  cbn [length nth] in Hl, H0. rewrite length_repeat_zeros2 in Hl.
  split; [exact Hc|]. exists vel.
  split; [exact Hv|]. split; [exact Hl|]. split; [exact H0|].
  assert (Hrows' : forall t, (S t < S h)%nat ->
            nth (S t) vel []
            = predict (motion_model_ o) (nth t vel []) (nth t u []))
    by (intros t Ht; apply Hrows; lia).
  split; [exact Hrows'|].
  split.
  { intros min_turning_r model Hm t Ht. rewrite Hrows' by exact Ht.
    now apply (make_motion_model_predict min_turning_r model). }
  intros trajectory.
  assert (Hlt : length trajectory = S h)
    by (unfold trajectory; now rewrite length_integrate_from).
  split; [|split; [exact Hlt | apply rows_integrate_from]].
  unfold getOptimizedTrajectory. fold s hol u. rewrite Hts. fold state.
  unfold integrate. rewrite Hv, Hp, Hpi. cbn [map]. fold trajectory.
  assert (Hrow : length (hd [] trajectory) = 3%nat).
  { apply hd_integrate_from. intros E. rewrite E in Hl. simpl in Hl. lia. }
  apply squeeze_to_2d_single; lia.
Qed.

(** ** Further properties of [updateControlSequence] *)





(** ** Further properties of [fallback] and of the retry loop *)

Lemma fallback_true_throw (p : Process) (o : Opt) :
  (retry_attempt_limit (settings_ o) < counter p)%Z ->
  fallback' true p o
  = (Throw "Optimizer fail to compute path", mkProcess 0, reset' o).
Proof.
  intros H. unfold fallback. cbn [negb]. rewrite reset_settings.
  apply Z.ltb_lt in H. now rewrite H.
Qed.

Lemma fallback_true_retry (p : Process) (o : Opt) :
  (counter p <= retry_attempt_limit (settings_ o))%Z ->
  fallback' true p o
  = (Return true, mkProcess (size_t_incr (counter p)), reset' o).
Proof.
  intros H. unfold fallback. cbn [negb]. rewrite reset_settings.
  apply Z.ltb_ge in H. now rewrite H.
Qed.

Lemma induced_failures_cons (n : nat) (p p1 p2 : Process) (o o1 o2 : Opt)
  (r : outcome bool) (rs : list (outcome bool)) :
  fallback' true p o = (r, p1, o1) ->
  induced n p1 o1 = (rs, p2, o2) ->
  induced (S n) p o = (r :: rs, p2, o2).
Proof.
  intros H1 H2. cbn [induced_failures]. rewrite H1, H2. reflexivity.
Qed.

Lemma induced_failures_until_fatal (n : nat) : forall (p : Process) (o : Opt),
  (0 <= counter p)%Z ->
  (retry_attempt_limit (settings_ o) < SIZE_MAX)%Z ->
  (counter p + Z.of_nat n = retry_attempt_limit (settings_ o) + 1)%Z ->
  exists o' : Opt,
    induced (S n) p o
    = (repeat (Return true) n ++ [Throw "Optimizer fail to compute path"],
       mkProcess 0, o').
Proof.
  induction n as [|n IH]; intros p o Hc Hmax Hn.
  - exists (reset' o).
    apply (induced_failures_cons 0 p (mkProcess 0) (mkProcess 0) o
             (reset' o) (reset' o));
      [apply fallback_true_throw; lia | reflexivity].
  - destruct (IH (mkProcess (size_t_incr (counter p))) (reset' o))
      as [o' Ho'].
    + apply size_t_incr_bounds; assumption.
    + now rewrite reset_settings.
    + rewrite reset_settings.
      change (counter (mkProcess (size_t_incr (counter p))))
        with (size_t_incr (counter p)).
      rewrite size_t_incr_exact by lia. lia.
    + exists o'.
      apply (induced_failures_cons (S n) p
               (mkProcess (size_t_incr (counter p))) (mkProcess 0) o
               (reset' o) o' (Return true)
               (repeat (Return true) n
                  ++ [Throw "Optimizer fail to compute path"]));
        [apply fallback_true_retry; lia | exact Ho'].
Qed.

(** X11.  The retry budget as the code counts it.  From a cleared counter
    and with a limit [L] below [SIZE_MAX], the first [L + 1] consecutive
    failures are all retried ([fallback] returns [true]) and failure number
    [L + 2] raises the fatal error and clears the counter. *)
Theorem induced_failures_first_fatal (p : Process) (o : Opt) :
  counter p = 0%Z ->
  (0 <= retry_attempt_limit (settings_ o) < SIZE_MAX)%Z ->
  let retried := (Z.to_nat (retry_attempt_limit (settings_ o)) + 1)%nat in
  exists o' : Opt,
    induced (S retried) p o
    = (repeat (Return true) retried
         ++ [Throw "Optimizer fail to compute path"],
       mkProcess 0, o').
Proof.
  intros Hc HL retried.
  apply induced_failures_until_fatal; unfold retried; lia.
Qed.

(** X12.  A limit equal to [SIZE_MAX] is never exceeded: the counter wraps
    before it could pass it, so no number of consecutive failures raises the
    fatal error. *)
Theorem induced_failures_never_fatal_at_size_max (n : nat) :
  forall (p : Process) (o : Opt),
  (0 <= counter p <= SIZE_MAX)%Z ->
  retry_attempt_limit (settings_ o) = SIZE_MAX ->
  fatal_raised (fst (fst (induced n p o))) = false.
Proof.
  induction n as [|n IH]; intros p o Hc HL; [reflexivity|].
  rewrite induced_failures_unfold. cbn [fst]. rewrite fatal_raised_cons.
  destruct (fallback_true_cases p o) as [[Hlt _] | [Hle [Hr Hp]]]; [lia|].
  rewrite Hr. cbn [is_fatal orb]. apply IH.
  - rewrite Hp. cbn [counter]. unfold size_t_incr, SIZE_MAX.
    pose proof (Z.mod_pos_bound (counter p + 1) (2 ^ 64)). lia.
  - now rewrite fallback_settings.
Qed.

Lemma retry_loop_result (fuel : nat) :
  forall (p p' : Process) (o o' : Opt) (r : outcome unit),
  retry_loop' fuel p o = Some (r, p', o') ->
  counter p' = 0%Z /\
  settings_ o' = settings_ o /\
  match r with
  | Return _ => fail_flag o' = false
  | Throw what =>
      what = "Optimizer fail to compute path"%string /\
      exists before : Opt,
        o' = reset' before /\ settings_ before = settings_ o
  end.
Proof.
  induction fuel as [|fuel IH]; intros p p' o o' r H; [discriminate H|].
  rewrite retry_loop_step in H.
  destruct (fail_flag (optimize' o)) eqn:Hflag.
  - destruct (retry_attempt_limit (settings_ o) <? counter p)%Z.
    + inversion H; subst. split; [reflexivity|].
      split; [now rewrite reset_settings, optimize_settings|].
      split; [reflexivity|]. eexists. split; [reflexivity|].
      apply optimize_settings.
    + apply IH in H. rewrite reset_settings, optimize_settings in H.
      destruct H as [Hc [Hs Hr]]. split; [exact Hc|]. split; [exact Hs|].
      destruct r as [u | what]; [exact Hr|].
      destruct Hr as [Hw [before [Ho Hb]]]. split; [exact Hw|].
      exists before. split; [exact Ho | exact Hb].
  - inversion H; subst. split; [reflexivity|].
    split; [apply optimize_settings | exact Hflag].
Qed.

(** X13.  Whatever way [evalControl] ends, it leaves the retry counter
    cleared and the settings as they were: failures are never carried from
    one tick to the next. *)
Theorem evalControl_clears_counter (fuel : nat) (robot_pose : Pose)
  (robot_speed : Twist) (plan : Path) (checker : GoalChecker)
  (p p' : Process) (o o' : Opt) (r : outcome TwistStamped) :
  evalControl' fuel robot_pose robot_speed plan checker p o
  = Some (r, p', o') ->
  counter p' = 0%Z /\ settings_ o' = settings_ o.
Proof.
  unfold evalControl. intros H.
  destruct (retry_loop' fuel p (prepare robot_pose robot_speed plan checker o))
    as [[[r1 p1] o1]|] eqn:Hloop; [|discriminate H].
  destruct (retry_loop_result _ _ _ _ _ _ Hloop) as [Hc [Hs _]].
  change (settings_ (prepare robot_pose robot_speed plan checker o))
    with (settings_ o) in Hs.
  destruct r1 as [[]|what]; inversion H; subst; split; try assumption.
  destruct (shift_control_sequence (settings_ o1)); assumption.
Qed.

(** X14.  After the fatal error the warm start is gone: when [evalControl]
    throws, the message is the one of [fallback], and the optimizer is left
    freshly reset, with a nominal control sequence and costs of zeros of the
    configured sizes. *)
Theorem evalControl_after_fatal (fuel : nat) (robot_pose : Pose)
  (robot_speed : Twist) (plan : Path) (checker : GoalChecker)
  (p p' : Process) (o o' : Opt) (what : string) :
  evalControl' fuel robot_pose robot_speed plan checker p o
  = Some (Throw what, p', o') ->
  what = "Optimizer fail to compute path"%string /\
  data (control_sequence_ o')
  = zeros2 (time_steps (settings_ o))
      (idx_dim (cs_idx (control_sequence_ o'))) /\
  costs_ o' = zeros1 (batch_size (settings_ o)).
Proof.
  unfold evalControl. intros H.
  destruct (retry_loop' fuel p (prepare robot_pose robot_speed plan checker o))
    as [[[r1 p1] o1]|] eqn:Hloop; [|discriminate H].
  destruct (retry_loop_result _ _ _ _ _ _ Hloop) as [_ [_ Hr]].
  destruct r1 as [[]|what1]; [discriminate H|].
  inversion H; subst.
  destruct Hr as [Hw [before [Ho Hb]]].
  change (settings_ (prepare robot_pose robot_speed plan checker o))
    with (settings_ o) in Hb.
  split; [exact Hw|]. rewrite Ho.
  split; [cbn; now rewrite Hb | cbn; now rewrite Hb].
Qed.

Lemma generateNoisedTrajectories_fail_flag (o : Opt) :
  fail_flag (generateNoisedTrajectories NoiseGenerator_generate o)
  = fail_flag o.
Proof.
  unfold generateNoisedTrajectories, applyControlConstraints,
    generateNoisedControls.
  destruct (NoiseGenerator_generate (noise_generator_ o)) as [noise g].
  reflexivity.
Qed.

Lemma optimize_once_keeps_failure (o : Opt) :
  (forall d, cd_fail_flag d = true -> snd (evalTrajectoriesScores d) = true) ->
  fail_flag o = true -> fail_flag (optimize_once' o) = true.
Proof.
  intros Hsticky Hflag. unfold optimize_once, updateControlSequence, evalScores.
  specialize (Hsticky
    (critics_data (generateNoisedTrajectories NoiseGenerator_generate o))).
  destruct (evalTrajectoriesScores
              (critics_data
                 (generateNoisedTrajectories NoiseGenerator_generate o)))
    as [costs fail].
  cbn [snd] in Hsticky. cbn. apply Hsticky.
  unfold critics_data. cbn [cd_fail_flag].
  now rewrite generateNoisedTrajectories_fail_flag.
Qed.

Lemma optimize_keeps_failure (o : Opt) :
  (forall d, cd_fail_flag d = true -> snd (evalTrajectoriesScores d) = true) ->
  fail_flag o = true -> fail_flag (optimize' o) = true.
Proof.
  intros Hsticky Hflag. unfold optimize.
  induction (iteration_count (settings_ o)) as [|n IH]; [exact Hflag|].
  rewrite Nat.iter_succ. now apply optimize_once_keeps_failure.
Qed.

(** X15.  Neither [reset()] nor [fallback()] clears the fail flag; only
    [prepare] does, once per tick.  So with critics that raise the flag but
    never lower it, a tick whose first pass fails cannot succeed: every
    later pass fails too, and the retry loop never ends with a control. *)
Theorem retry_loop_failure_is_final (fuel : nat) :
  forall (p : Process) (o : Opt),
  (forall d, cd_fail_flag d = true -> snd (evalTrajectoriesScores d) = true) ->
  fail_flag (optimize' o) = true ->
  match retry_loop' fuel p o with
  | Some (Return _, _, _) => False
  | _ => True
  end.
Proof.
  induction fuel as [|fuel IH]; intros p o Hsticky Hflag; [exact I|].
  rewrite retry_loop_step, Hflag.
  destruct (retry_attempt_limit (settings_ o) <? counter p)%Z; [exact I|].
  apply IH; [exact Hsticky|].
  apply optimize_keeps_failure; [exact Hsticky | exact Hflag].
Qed.

(** X16.  With [retry_attempt_limit] equal to [SIZE_MAX] the same failing
    tick never ends: the counter cannot pass the limit, so the loop is not
    left however much fuel it is given. *)
Theorem retry_loop_diverges_at_size_max (fuel : nat) :
  forall (p : Process) (o : Opt),
  (forall d, cd_fail_flag d = true -> snd (evalTrajectoriesScores d) = true) ->
  fail_flag (optimize' o) = true ->
  (0 <= counter p <= SIZE_MAX)%Z ->
  retry_attempt_limit (settings_ o) = SIZE_MAX ->
  retry_loop' fuel p o = None.
Proof.
  induction fuel as [|fuel IH]; intros p o Hsticky Hflag Hc HL;
    [reflexivity|].
  rewrite retry_loop_step, Hflag.
  destruct (Z.ltb_spec (retry_attempt_limit (settings_ o)) (counter p));
    [lia|].
  apply IH.
  - exact Hsticky.
  - apply optimize_keeps_failure; [exact Hsticky | exact Hflag].
  - cbn [counter]. unfold size_t_incr, SIZE_MAX.
    pose proof (Z.mod_pos_bound (counter p + 1) (2 ^ 64)). lia.
  - now rewrite reset_settings, optimize_settings.
Qed.

(** X17.  With [iteration_count] zero [optimize()] does nothing, so a tick
    cannot fail: [evalControl] leaves the loop after one pass, without a
    [reset()], and emits the row of the nominal sequence it was given. *)
Theorem evalControl_without_iterations (fuel : nat) (robot_pose : Pose)
  (robot_speed : Twist) (plan : Path) (checker : GoalChecker)
  (p : Process) (o : Opt) :
  iteration_count (settings_ o) = 0%nat ->
  let prepared := prepare robot_pose robot_speed plan checker o in
  evalControl' (S fuel) robot_pose robot_speed plan checker p o
  = Some (Return (getControlFromSequenceAsTwist toTwistStamped (stamp plan)
                    prepared),
          mkProcess 0,
          if shift_control_sequence (settings_ o)
          then shiftControlSequence prepared else prepared)
  /\ control_sequence_ prepared = control_sequence_ o
  /\ reset_calls prepared = reset_calls o.
Proof.
  intros Hn prepared.
  assert (Hopt : optimize' prepared = prepared).
  { unfold optimize, prepared.
    change (settings_ (prepare robot_pose robot_speed plan checker o))
      with (settings_ o).
    now rewrite Hn. }
  split; [|split; reflexivity].
  unfold evalControl. fold prepared.
  rewrite retry_loop_step, Hopt. reflexivity.
Qed.

(** ** Further properties of [setMotionModel] and the constraints *)

(** X18.  [setMotionModel] accepts exactly the three names [DiffDrive],
    [Omni] and [Ackermann]; any other name, also one that differs only in
    case, throws. *)
Theorem setMotionModel_accepts (min_turning_r : R) (model : string)
  (o : Opt) :
  (exists o', setMotionModel min_turning_r model o = Return o')
  <-> model = "DiffDrive"%string \/ model = "Omni"%string
      \/ model = "Ackermann"%string.
Proof.
  rewrite <- (make_motion_model_accepts min_turning_r model).
  unfold setMotionModel.
  destruct (make_motion_model min_turning_r model) as [m | what].
  - split; eauto.
  - split; intros [x H]; discriminate H.
Qed.

(** X19.  When [setMotionModel] succeeds, the layouts of the state and of
    the control sequence both follow the holonomy of the new model, which is
    holonomic exactly for [Omni]; the settings and the tensors themselves
    are left as they are, and the [reset()] that follows gives the nominal
    sequence the width of the new layout. *)
Theorem setMotionModel_layouts (min_turning_r : R) (model : string)
  (o o' : Opt) :
  setMotionModel min_turning_r model o = Return o' ->
  state_idx (state_ o') = Optimizer_isHolonomic o' /\
  cs_idx (control_sequence_ o') = Optimizer_isHolonomic o' /\
  (Optimizer_isHolonomic o' = true <-> model = "Omni"%string) /\
  settings_ o' = settings_ o /\
  data (control_sequence_ o') = data (control_sequence_ o) /\
  controls (state_ o') = controls (state_ o) /\
  data (control_sequence_ (reset' o'))
  = zeros2 (time_steps (settings_ o))
      (if Optimizer_isHolonomic o' then 3%nat else 2%nat).
Proof.
  unfold setMotionModel.
  destruct (make_motion_model min_turning_r model) as [m | what] eqn:Hm;
    [|discriminate].
  intros H. inversion H; subst. clear H.
  pose proof (make_motion_model_holonomic _ _ _ Hm) as Hh.
  repeat (split; [reflexivity|]).
  split; [exact Hh|].
  repeat (split; [reflexivity|]). reflexivity.
Qed.

(** X20.  Controls that already respect the constraints are left alone: for
    the DiffDrive and Omni models, when every entry of the [cvx] and [cwz]
    slices (and of [cvy] for the holonomic model) is within its constraint,
    [applyControlConstraints] changes nothing. *)
Theorem applyControlConstraints_keeps_admissible (o : Opt) :
  motion_model_ o = DiffDriveMotionModel
  \/ motion_model_ o = OmniMotionModel ->
  let c := constraints (settings_ o) in
  Forall (Forall (fun v => Rabs v <= vx c))
    (getControlVelocitiesVX (state_ o)) ->
  Forall (Forall (fun v => Rabs v <= wz c))
    (getControlVelocitiesWZ (state_ o)) ->
  (Optimizer_isHolonomic o = true ->
   Forall (Forall (fun v => Rabs v <= vy c))
     (getControlVelocitiesVY (state_ o))) ->
  state_ (applyControlConstraints o) = state_ o.
Proof.
  intros Hm c Hvx Hwz Hvy.
  assert (Hfix : forall (b : R) (k : nat),
            Forall (Forall (fun v => Rabs v <= b)) (col k (controls (state_ o)))
            -> map_col k (clip (- b) b) (controls (state_ o))
               = controls (state_ o)).
  { intros b k Hb. apply map_col_fixed.
    eapply Forall_impl; [|exact Hb]. intros m Hrow.
    eapply Forall_impl; [|exact Hrow]. intros v. apply clip_inside. }
  unfold applyControlConstraints, Optimizer_isHolonomic in *.
  fold c. cbn [state_ with_state].
  destruct Hm as [E | E]; rewrite E in *;
    cbn [isHolonomic DiffDriveMotionModel OmniMotionModel applyConstraints
         controls set_controls state_idx] in *.
  - rewrite (Hfix _ _ Hvx). cbn [controls set_controls].
    rewrite set_controls_same.
    unfold getControlVelocitiesWZ in Hwz. rewrite (Hfix _ _ Hwz).
    apply set_controls_same.
  - rewrite (Hfix _ _ (Hvy eq_refl)). rewrite set_controls_same.
    rewrite (Hfix _ _ Hvx). rewrite set_controls_same.
    unfold getControlVelocitiesWZ in Hwz. rewrite (Hfix _ _ Hwz).
    apply set_controls_same.
Qed.

(** ** Further properties of the shift and of the state velocities *)

Lemma shiftControlSequence_iter_length (n : nat) (o : Opt) :
  (2 <= length (data (control_sequence_ o)))%nat ->
  length (data (control_sequence_ (Nat.iter n shiftControlSequence o)))
  = length (data (control_sequence_ o)).
Proof.
  intros Hh. induction n as [|n IH]; [reflexivity|].
  rewrite Nat.iter_succ.
  destruct (shiftControlSequence_rows (Nat.iter n shiftControlSequence o))
    as [Hl _]; lia.
Qed.

(** X21.  Shifting pads with the last control: after [n] shifts of a
    sequence [u] of at least two rows, row [t] is row [t + n] of [u], or
    the last row of [u] once [t + n] passes the end; after [length u - 1]
    shifts or more every row is the last row of [u]. *)
Theorem shiftControlSequence_repeated (n : nat) (o : Opt) :
  let u := data (control_sequence_ o) in
  let u_n := data (control_sequence_ (Nat.iter n shiftControlSequence o)) in
  (2 <= length u)%nat ->
  (forall t, (t < length u)%nat ->
     nth t u_n [] = nth (Nat.min (t + n) (length u - 1)) u []) /\
  ((length u - 1 <= n)%nat ->
   forall t, (t < length u)%nat -> nth t u_n [] = nth (length u - 1) u []).
Proof.
  intros u u_n Hh.
  assert (Hrows : forall t, (t < length u)%nat ->
            nth t u_n [] = nth (Nat.min (t + n) (length u - 1)) u []).
  { unfold u_n. clear u_n. induction n as [|n IH]; intros t Ht.
    - rewrite Nat.add_0_r, Nat.min_l by lia. reflexivity.
    - rewrite Nat.iter_succ.
      pose proof (shiftControlSequence_iter_length n o Hh) as Hlen.
      destruct (shiftControlSequence_rows (Nat.iter n shiftControlSequence o))
        as [_ [Hshift Hlast]]; [rewrite Hlen; exact Hh|].
      rewrite Hlen in Hshift, Hlast. fold u in Hshift, Hlast.
      destruct (Nat.eq_dec t (length u - 1)) as [E | N].
      + rewrite E, Hlast, IH by lia. f_equal. lia.
      + rewrite Hshift, IH by lia. f_equal. lia. }
  split; [exact Hrows|].
  intros Hn t Ht. rewrite Hrows by exact Ht. f_equal. lia.
Qed.

Lemma set_first_row_head (k : nat) (v : R) (P Q : list R -> Prop)
  (x : tensor3) :
  (forall row, P row -> Q (upd_nth k (fun _ => v) row)) ->
  Forall (fun m => match m with [] => True | row :: _ => P row end) x ->
  Forall (fun m => match m with [] => True | row :: _ => Q row end)
    (set_first_row k v x).
Proof.
  intros HP Hx. unfold set_first_row. apply Forall_map.
  eapply Forall_impl; [|exact Hx].
  intros [|row rows]; [trivial | apply HP].
Qed.

Lemma Forall_head_True (x : tensor3) :
  Forall (fun m => match m with [] => True | row :: _ => (fun _ => True) row end)
    x.
Proof. apply Forall_forall. intros [|row rows] _; exact I. Qed.

Lemma propagate_step_head (m : MotionModel) (P : list R -> Prop)
  (s : State) (i : nat) :
  Forall (fun w => match w with [] => True | row :: _ => P row end)
    (velocities s) ->
  Forall (fun w => match w with [] => True | row :: _ => P row end)
    (velocities (propagate_step m s i)).
Proof.
  intros Hs. unfold propagate_step. cbn [velocities set_velocities].
  apply Forall_map2. intros vel ctl Hin.
  rewrite Forall_forall in Hs. specialize (Hs vel Hin).
  destruct vel as [|row rows]; [exact I | exact Hs].
Qed.

Lemma propagate_head (m : MotionModel) (P : list R -> Prop)
  (steps : list nat) : forall s : State,
  Forall (fun w => match w with [] => True | row :: _ => P row end)
    (velocities s) ->
  Forall (fun w => match w with [] => True | row :: _ => P row end)
    (velocities (fold_left (propagate_step m) steps s)).
Proof.
  induction steps as [|i steps IH]; intros s Hs; [exact Hs|].
  simpl. apply IH. now apply propagate_step_head.
Qed.

(** X22.  Initial-velocity broadcast: after [updateStateVelocities], for a
    state laid out for the motion model, row [0] of every batch member's
    velocities carries the measured speed of the optimizer's own state in
    every column the row has: [linear.x] in [vx], [angular.z] in [wz] and,
    for a holonomic model, [linear.y] in [vy].  The propagation loop never
    writes row [0]. *)
Theorem updateStateVelocities_initial_row (o : Opt) (state : State) :
  state_idx state = Optimizer_isHolonomic o ->
  let sp := speed (state_ o) in
  let h := Optimizer_isHolonomic o in
  Forall (fun m =>
            match m with
            | [] => True
            | row :: _ =>
                ((idx_vx < length row)%nat -> nth idx_vx row 0 = linear_x sp)
                /\ ((idx_wz h < length row)%nat ->
                    nth (idx_wz h) row 0 = angular_z sp)
                /\ (h = true -> (idx_vy < length row)%nat ->
                    nth idx_vy row 0 = linear_y sp)
            end)
    (velocities (updateStateVelocities o state)).
Proof.
  intros Hidx sp h.
  unfold updateStateVelocities, propagateStateVelocitiesFromInitials.
  apply (propagate_head (motion_model_ o)
           (fun row =>
              ((idx_vx < length row)%nat -> nth idx_vx row 0 = linear_x sp)
              /\ ((idx_wz h < length row)%nat ->
                  nth (idx_wz h) row 0 = angular_z sp)
              /\ (h = true -> (idx_vy < length row)%nat ->
                  nth idx_vy row 0 = linear_y sp))).
  unfold updateInitialStateVelocities. fold sp h.
  cbn [state_idx set_velocities velocities]. rewrite Hidx. fold h.
  assert (Hset : forall k v row, (k < length row)%nat ->
            nth k (upd_nth k (fun _ => v) row) 0 = v).
  { intros k v row Hk. rewrite nth_upd_nth_same.
    apply Nat.ltb_lt in Hk. now rewrite Hk. }
  assert (Hwz : Forall
            (fun m =>
               match m with
               | [] => True
               | row :: _ =>
                   ((idx_vx < length row)%nat ->
                    nth idx_vx row 0 = linear_x sp)
                   /\ ((idx_wz h < length row)%nat ->
                       nth (idx_wz h) row 0 = angular_z sp)
               end)
            (set_first_row (idx_wz h) (angular_z sp)
               (set_first_row idx_vx (linear_x sp) (velocities state)))).
  { apply (set_first_row_head _ _
             (fun row => (idx_vx < length row)%nat ->
                         nth idx_vx row 0 = linear_x sp)).
    - intros row Hrow. rewrite length_upd_nth. split.
      + intros Hk. rewrite nth_upd_nth_other
          by (intros E; exact (idx_wz_not_vx h (eq_sym E))).
        now apply Hrow.
      + intros Hk. now apply Hset.
    - apply (set_first_row_head _ _ (fun _ => True));
        [|apply Forall_head_True].
      intros row _. rewrite length_upd_nth. intros Hk. now apply Hset. }
  destruct h eqn:Hh; cbn [velocities set_velocities].
  - eapply set_first_row_head; [|exact Hwz].
    intros row [H1 H2]. rewrite length_upd_nth.
    split; [|split].
    + intros Hk. rewrite nth_upd_nth_other by discriminate. now apply H1.
    + intros Hk. rewrite nth_upd_nth_other by discriminate. now apply H2.
    + intros _ Hk. now apply Hset.
  - eapply Forall_impl; [|exact Hwz].
    intros [|row rows]; [trivial|]. intros [H1 H2].
    split; [exact H1|]. split; [exact H2 | discriminate].
Qed.

(** ** One optimisation pass keeps the nominal sequence within the limits *)





End Properties.

(** ** The model run on the sample optimizer *)

(** C2, counterexample.  With [retry_attempt_limit = 1] and a cleared
    counter, two consecutive induced failures make two [reset()] calls, not
    three, and raise no fatal error although [2 > 1]. *)
Lemma induced_failures_two_of_limit_one :
  let o := sample_optimizer "base_link" 1 in
  let run := induced_failures still_reset 2 (mkProcess 0) o in
  reset_calls (snd run) = (reset_calls o + 2)%nat /\
  fatal_raised (fst (fst run)) = false /\
  ~ (reset_calls (snd run) = (reset_calls o + (2 + 1))%nat /\
     (fatal_raised (fst (fst run)) = true
      <-> (retry_attempt_limit (settings_ o) < 2)%Z)).
Proof.
  cbv zeta.
  split; [vm_compute; reflexivity|]. split; [vm_compute; reflexivity|].
  intros [H _]. vm_compute in H. discriminate H.
Qed.

Lemma induced_failures_reset_per_call_witness :
  reset_calls
    (snd (induced_failures still_reset 2 (mkProcess 0)
            (sample_optimizer "base_link" 5)))
  = (reset_calls (sample_optimizer "base_link" 5) + 2)%nat /\
  ((Z.of_nat 2
    <= retry_attempt_limit (settings_ (sample_optimizer "base_link" 5)))%Z ->
   fatal_raised
     (fst (fst (induced_failures still_reset 2 (mkProcess 0)
                  (sample_optimizer "base_link" 5))))
   = false).
Proof.
  apply (induced_failures_reset_per_call still_reset 2 (mkProcess 0)
           (sample_optimizer "base_link" 5)).
  reflexivity.
Defined.

(** C3.  Two optimizers of one process, both with [retry_attempt_limit = 1]
    and a cleared counter.  Two failures of the first one are retried and
    leave the counter at [2]; the first failure of the second optimizer,
    which would be retried from a cleared counter, then raises the fatal
    error: the counter is shared by the instances. *)
Theorem fallback_counter_shared_by_instances :
  let a := sample_optimizer "robot_a" 1 in
  let b := sample_optimizer "robot_b" 1 in
  let cleared := mkProcess 0 in
  let after_a := snd (fst (induced_failures still_reset 2 cleared a)) in
  fatal_raised (fst (fst (induced_failures still_reset 2 cleared a))) = false /\
  counter after_a = 2%Z /\
  fst (fst (fallback still_reset true cleared b)) = Return true /\
  fst (fst (fallback still_reset true after_a b))
  = Throw "Optimizer fail to compute path".
Proof.
  cbv zeta.
  split; [vm_compute; reflexivity|]. split; [vm_compute; reflexivity|].
  split; vm_compute; reflexivity.
Qed.

Lemma setOffset_cases_witness :
  let s := set_shift_control_sequence (sample_settings 1) false in
  let controller_period := 1 / 10 in
  ((exists what, setOffset 10 s = Throw what)
   <-> model_dt s + eps <= controller_period) /\
  ((exists s', setOffset 10 s = Return s' /\ shift_control_sequence s' = true)
   <-> model_dt s <= controller_period
       /\ Rabs (controller_period - model_dt s) < eps) /\
  (controller_period < model_dt s -> setOffset 10 s = Return s).
Proof.
  apply (setOffset_cases 10
           (set_shift_control_sequence (sample_settings 1) false)).
  - lra.
  - reflexivity.
Defined.

Lemma sample_controls_shaped :
  Forall (shaped 3 2) (controls (state_ (sample_optimizer "base_link" 1))).
Proof. repeat constructor. Qed.

Lemma updateControlSequence_weighted_average_witness :
  let o := sample_optimizer "base_link" 1 in
  let costs := costs_ o in
  let w := spec_weight (temperature (settings_ o)) costs in
  let batch := seq 0 (length costs) in
  (Forall (fun x => amin costs <= x) costs /\ In (amin costs) costs) /\
  (forall t k,
     entry2 (data (control_sequence_ (updateControlSequence o))) t k
     = sum_list (map (fun b => w b * entry3 (controls (state_ o)) b t k)
                   batch)) /\
  shaped 3 2 (data (control_sequence_ (updateControlSequence o))) /\
  Forall (fun b => 0 <= w b) batch /\
  sum_list (map w batch) = 1.
Proof.
  apply (updateControlSequence_weighted_average
           (sample_optimizer "base_link" 1) 3 2).
  - change (1 / 4 <> 0). lra.
  - discriminate.
  - reflexivity.
  - exact sample_controls_shaped.
Defined.

Lemma applyControlConstraints_clips_witness :
  let o := sample_optimizer "base_link" 1 in
  let c := constraints (settings_ o) in
  let st' := state_ (applyControlConstraints o) in
  Forall (Forall (fun v => Rabs v <= vx c)) (getControlVelocitiesVX st') /\
  Forall (Forall (fun v => Rabs v <= wz c)) (getControlVelocitiesWZ st') /\
  (isHolonomic DiffDriveMotionModel = true ->
   Forall (Forall (fun v => Rabs v <= vy c)) (getControlVelocitiesVY st')).
Proof.
  apply (applyControlConstraints_clips 1 "DiffDrive" DiffDriveMotionModel
           (sample_optimizer "base_link" 1)).
  - reflexivity.
  - reflexivity.
  - reflexivity.
  - change (0 <= 1 / 2). lra.
  - change (0 <= 1 / 4). lra.
  - change (0 <= 13 / 10). lra.
Defined.

Lemma getOptimizedTrajectory_single_trajectory_witness :
  exists vel : tensor2,
    length vel = 3%nat /\
    nth 0 vel [] = [1 / 2; 1 / 5] /\
    nth 1 vel [] = [1; 2] /\
    nth 2 vel [] = [3; 4] /\
    getOptimizedTrajectory sample_moving_optimizer
    = Some (integrate_from false (1 / 10) 0 0 0 vel) /\
    length (integrate_from false (1 / 10) 0 0 0 vel) = 3%nat.
Proof.
  destruct (getOptimizedTrajectory_single_trajectory sample_moving_optimizer)
    as [_ [vel [_ [Hlen [H0 [_ [Hu [Hsome [Hl _]]]]]]]]].
  - change (2 <= 3)%nat. lia.
  - assert (H1 : (1 < 3)%nat) by lia. assert (H2 : (2 < 3)%nat) by lia.
    exists vel. split; [exact Hlen|]. split; [exact H0|].
    split; [exact (Hu 1 "DiffDrive"%string eq_refl 0%nat H1)|].
    split; [exact (Hu 1 "DiffDrive"%string eq_refl 1%nat H2)|].
    split; [exact Hsome | exact Hl].
Defined.

Lemma evalControl_retry_loop_terminates_witness :
  let o := sample_optimizer "base_link" 1 in
  let passes := (Z.to_nat (retry_attempt_limit (settings_ o)) + 2)%nat in
  (exists r,
     retry_loop still_reset still_generate critics_always_fail passes
       (mkProcess 0) (prepare (mkPose 0 0 0) (mkTwist 0 0 0) sample_plan tt o)
     = Some r) /\
  (exists r,
     evalControl still_reset still_generate critics_always_fail
       row_toTwistStamped passes (mkPose 0 0 0) (mkTwist 0 0 0) sample_plan tt
       (mkProcess 0) o
     = Some r).
Proof.
  apply (evalControl_retry_loop_terminates still_reset still_generate
           critics_always_fail row_toTwistStamped (mkPose 0 0 0)
           (mkTwist 0 0 0) sample_plan tt (mkProcess 0)
           (sample_optimizer "base_link" 1)).
  - change (0 <= 0 <= SIZE_MAX)%Z. unfold SIZE_MAX. lia.
  - change (0 <= 1 < SIZE_MAX)%Z. unfold SIZE_MAX. lia.
Defined.

Lemma fallback_false {NoiseGenerator GoalChecker : Type}
  (NoiseGenerator_reset :
     OptimizerSettings -> bool -> NoiseGenerator -> NoiseGenerator)
  (p : Process) (o : Optimizer NoiseGenerator GoalChecker) :
  fallback NoiseGenerator_reset false p o = (Return false, mkProcess 0, o).
Proof. reflexivity. Qed.

Lemma optimize_once_never_fail (o : Optimizer tensor3 unit) :
  fail_flag (optimize_once still_generate critics_never_fail o) = false.
Proof. reflexivity. Qed.

Lemma sample_optimized_flag : fail_flag sample_optimized = false.
Proof.
  unfold sample_optimized, optimize.
  change (iteration_count (settings_ sample_prepared)) with 1%nat.
  rewrite Nat.iter_succ. apply optimize_once_never_fail.
Qed.

Lemma sample_tick_returns :
  evalControl still_reset still_generate critics_never_fail row_toTwistStamped
    1 (mkPose 0 0 0) (mkTwist 0 0 0) sample_plan tt (mkProcess 0)
    (sample_optimizer "base_link" 1)
  = Some (Return (getControlFromSequenceAsTwist row_toTwistStamped
                    (stamp sample_plan) sample_optimized),
          mkProcess 0, shiftControlSequence sample_optimized).
Proof.
  unfold evalControl. fold sample_prepared.
  rewrite retry_loop_unfold. fold sample_optimized.
  rewrite sample_optimized_flag, fallback_false.
  cbv beta iota.
  replace (shift_control_sequence (settings_ sample_optimized)) with true;
    [reflexivity|].
  unfold sample_optimized. now rewrite optimize_settings.
Qed.

Lemma evalControl_emits_then_shifts_witness :
  exists optimized : Optimizer tensor3 unit,
    retry_loop still_reset still_generate critics_never_fail 1 (mkProcess 0)
      (prepare (mkPose 0 0 0) (mkTwist 0 0 0) sample_plan tt
         (sample_optimizer "base_link" 1))
    = Some (Return tt, mkProcess 0, optimized) /\
    let u := data (control_sequence_ optimized) in
    let u' := data (control_sequence_ (shiftControlSequence sample_optimized)) in
    let emitted (offset : nat) :=
      row_toTwistStamped (nth offset u [])
        (cs_idx (control_sequence_ optimized))
        (Optimizer_isHolonomic optimized) (stamp sample_plan)
        (base_frame_id optimized) in
    if shift_control_sequence (settings_ (sample_optimizer "base_link" 1)) then
      getControlFromSequenceAsTwist row_toTwistStamped (stamp sample_plan)
        sample_optimized = emitted 1%nat /\
      ((2 <= length u)%nat ->
       length u' = length u /\
       (forall t, (t < length u - 1)%nat -> nth t u' [] = nth (S t) u []) /\
       nth (length u - 1) u' [] = nth (length u - 1) u [])
    else
      getControlFromSequenceAsTwist row_toTwistStamped (stamp sample_plan)
        sample_optimized = emitted 0%nat
      /\ shiftControlSequence sample_optimized = optimized.
Proof.
  exact (evalControl_emits_then_shifts still_reset still_generate
           critics_never_fail row_toTwistStamped 1 (mkPose 0 0 0)
           (mkTwist 0 0 0) sample_plan tt (mkProcess 0) (mkProcess 0)
           (sample_optimizer "base_link" 1)
           (shiftControlSequence sample_optimized)
           (getControlFromSequenceAsTwist row_toTwistStamped
              (stamp sample_plan) sample_optimized)
           sample_tick_returns).
Defined.

(** ** Witnesses of the further properties *)

Lemma setSpeedLimit_percentage_within_base_witness :
  let s := sample_settings 1 in
  let c := constraints (setSpeedLimit 0 50 true s) in
  0 <= vx c <= vx (base_constraints s) /\
  0 <= vy c <= vy (base_constraints s) /\
  0 <= wz c <= wz (base_constraints s).
Proof.
  apply (setSpeedLimit_percentage_within_base 0 50 (sample_settings 1)).
  - lra.
  - lra.
  - change (0 <= 1 / 2). lra.
  - change (0 <= 1 / 4). lra.
  - change (0 <= 13 / 10). lra.
Defined.

Lemma setOffset_negative_frequency_witness :
  setOffset (-10) (sample_settings 1) = Return (sample_settings 1).
Proof.
  apply (setOffset_negative_frequency (-10) (sample_settings 1)).
  - lra.
  - change (0 <= 1 / 10). lra.
Defined.

Lemma setOffset_sample_accepts_20 :
  setOffset 20 (sample_settings 1) = Return (sample_settings 1).
Proof.
  unfold setOffset.
  change (model_dt (sample_settings 1)) with (1 / 10).
  destruct (Rlt_dec (1 / 20) (1 / 10)) as [|H]; [reflexivity | lra].
Qed.

Lemma setOffset_accepts_higher_frequency_witness :
  exists s2, setOffset 40 (sample_settings 1) = Return s2.
Proof.
  apply (setOffset_accepts_higher_frequency 20 40 (sample_settings 1)).
  - lra.
  - exists (sample_settings 1). exact setOffset_sample_accepts_20.
Defined.

Lemma exponents_stabilised_witness :
  Forall (fun e => 0 < e <= 1) (exponents (1 / 4) [1; 3]) /\
  ([1; 3] <> [] -> In 1 (exponents (1 / 4) [1; 3])) /\
  ([1; 3] <> [] -> 1 <= sum_list (exponents (1 / 4) [1; 3])).
Proof. apply (exponents_stabilised (1 / 4) [1; 3]). lra. Defined.


Lemma softmaxes_antitone_witness :
  nth 1 (softmaxes (1 / 4) [1; 3]) 0 <= nth 0 (softmaxes (1 / 4) [1; 3]) 0.
Proof.
  apply (softmaxes_antitone (1 / 4) [1; 3] 0 1).
  - lra.
  - simpl. lia.
  - simpl. lia.
  - simpl. lra.
Defined.




Lemma induced_failures_first_fatal_witness :
  let o := sample_optimizer "base_link" 1 in
  let retried := (Z.to_nat (retry_attempt_limit (settings_ o)) + 1)%nat in
  exists o' : Optimizer tensor3 unit,
    induced_failures still_reset (S retried) (mkProcess 0) o
    = (repeat (Return true) retried
         ++ [Throw "Optimizer fail to compute path"],
       mkProcess 0, o').
Proof.
  apply (induced_failures_first_fatal still_reset (mkProcess 0)
           (sample_optimizer "base_link" 1)).
  - reflexivity.
  - change (0 <= 1 < SIZE_MAX)%Z. unfold SIZE_MAX. lia.
Defined.

Lemma induced_failures_never_fatal_at_size_max_witness :
  fatal_raised
    (fst (fst (induced_failures still_reset 3 (mkProcess 0)
                 (sample_optimizer "base_link" SIZE_MAX))))
  = false.
Proof.
  apply (induced_failures_never_fatal_at_size_max still_reset 3 (mkProcess 0)
           (sample_optimizer "base_link" SIZE_MAX)).
  - change (0 <= 0 <= SIZE_MAX)%Z. unfold SIZE_MAX. lia.
  - reflexivity.
Defined.

Lemma evalControl_clears_counter_witness :
  counter (mkProcess 0) = 0%Z /\
  settings_ (shiftControlSequence sample_optimized)
  = settings_ (sample_optimizer "base_link" 1).
Proof.
  exact (evalControl_clears_counter still_reset still_generate
           critics_never_fail row_toTwistStamped 1 (mkPose 0 0 0)
           (mkTwist 0 0 0) sample_plan tt (mkProcess 0) (mkProcess 0)
           (sample_optimizer "base_link" 1)
           (shiftControlSequence sample_optimized) _ sample_tick_returns).
Defined.

Lemma optimize_always_fail (o : Optimizer tensor3 unit) :
  iteration_count (settings_ o) = 1%nat ->
  fail_flag (optimize still_generate critics_always_fail o) = true.
Proof.
  intros H. unfold optimize. rewrite H, Nat.iter_succ. reflexivity.
Qed.

Lemma sample_failed_pass_settings (o : Optimizer tensor3 unit) :
  settings_ (sample_failed_pass o) = settings_ o.
Proof.
  unfold sample_failed_pass. now rewrite reset_settings, optimize_settings.
Qed.

Lemma sample_tick_throws :
  evalControl still_reset still_generate critics_always_fail
    row_toTwistStamped 3 (mkPose 0 0 0) (mkTwist 0 0 0) sample_plan tt
    (mkProcess 0) (sample_optimizer "base_link" 1)
  = Some (Throw "Optimizer fail to compute path", mkProcess 0,
          sample_after_fatal).
Proof.
  unfold evalControl. fold sample_prepared.
  rewrite retry_loop_step, optimize_always_fail by reflexivity.
  change (retry_attempt_limit (settings_ sample_prepared)) with 1%Z.
  cbn [counter Z.ltb Z.compare]. fold (sample_failed_pass sample_prepared).
  rewrite retry_loop_step, optimize_always_fail
    by (now rewrite sample_failed_pass_settings).
  rewrite sample_failed_pass_settings.
  change (retry_attempt_limit (settings_ sample_prepared)) with 1%Z.
  change (size_t_incr 0) with 1%Z.
  cbn [counter Z.ltb Z.compare Pos.compare Pos.compare_cont].
  fold (sample_failed_pass (sample_failed_pass sample_prepared)).
  rewrite retry_loop_step, optimize_always_fail
    by (now rewrite !sample_failed_pass_settings).
  rewrite !sample_failed_pass_settings.
  change (retry_attempt_limit (settings_ sample_prepared)) with 1%Z.
  change (size_t_incr 1) with 2%Z.
  cbn [counter Z.ltb Z.compare Pos.compare Pos.compare_cont].
  reflexivity.
Qed.

Lemma evalControl_after_fatal_witness :
  "Optimizer fail to compute path"%string
  = "Optimizer fail to compute path"%string /\
  data (control_sequence_ sample_after_fatal)
  = zeros2 (time_steps (settings_ (sample_optimizer "base_link" 1)))
      (idx_dim (cs_idx (control_sequence_ sample_after_fatal))) /\
  costs_ sample_after_fatal
  = zeros1 (batch_size (settings_ (sample_optimizer "base_link" 1))).
Proof.
  exact (evalControl_after_fatal still_reset still_generate
           critics_always_fail row_toTwistStamped 3 (mkPose 0 0 0)
           (mkTwist 0 0 0) sample_plan tt (mkProcess 0) (mkProcess 0)
           (sample_optimizer "base_link" 1) sample_after_fatal _
           sample_tick_throws).
Defined.

Lemma critics_always_fail_sticky (d : CriticData unit) :
  cd_fail_flag d = true -> snd (critics_always_fail d) = true.
Proof. reflexivity. Qed.

Lemma retry_loop_failure_is_final_witness :
  match
    retry_loop still_reset still_generate critics_always_fail 2 (mkProcess 0)
      sample_prepared
  with
  | Some (Return _, _, _) => False
  | _ => True
  end.
Proof.
  apply (retry_loop_failure_is_final still_reset still_generate
           critics_always_fail 2 (mkProcess 0) sample_prepared).
  - exact critics_always_fail_sticky.
  - apply optimize_always_fail. reflexivity.
Defined.

Lemma retry_loop_diverges_at_size_max_witness :
  retry_loop still_reset still_generate critics_always_fail 4 (mkProcess 0)
    (sample_optimizer "base_link" SIZE_MAX)
  = None.
Proof.
  apply (retry_loop_diverges_at_size_max still_reset still_generate
           critics_always_fail 4 (mkProcess 0)
           (sample_optimizer "base_link" SIZE_MAX)).
  - exact critics_always_fail_sticky.
  - apply optimize_always_fail. reflexivity.
  - change (0 <= 0 <= SIZE_MAX)%Z. unfold SIZE_MAX. lia.
  - reflexivity.
Defined.

Lemma evalControl_without_iterations_witness :
  let prepared :=
    prepare (mkPose 0 0 0) (mkTwist 0 0 0) sample_plan tt
      sample_idle_optimizer in
  evalControl still_reset still_generate critics_always_fail
    row_toTwistStamped 1 (mkPose 0 0 0) (mkTwist 0 0 0) sample_plan tt
    (mkProcess 7) sample_idle_optimizer
  = Some (Return (getControlFromSequenceAsTwist row_toTwistStamped
                    (stamp sample_plan) prepared),
          mkProcess 0,
          if shift_control_sequence (settings_ sample_idle_optimizer)
          then shiftControlSequence prepared else prepared)
  /\ control_sequence_ prepared = control_sequence_ sample_idle_optimizer
  /\ reset_calls prepared = reset_calls sample_idle_optimizer.
Proof.
  apply (evalControl_without_iterations still_reset still_generate
           critics_always_fail row_toTwistStamped 0 (mkPose 0 0 0)
           (mkTwist 0 0 0) sample_plan tt (mkProcess 7)
           sample_idle_optimizer).
  reflexivity.
Defined.

Lemma sample_setMotionModel_omni :
  setMotionModel 1 "Omni" (sample_optimizer "base_link" 1)
  = Return sample_omni_optimizer.
Proof. reflexivity. Qed.

Lemma setMotionModel_layouts_witness :
  state_idx (state_ sample_omni_optimizer)
  = Optimizer_isHolonomic sample_omni_optimizer /\
  cs_idx (control_sequence_ sample_omni_optimizer)
  = Optimizer_isHolonomic sample_omni_optimizer /\
  (Optimizer_isHolonomic sample_omni_optimizer = true
   <-> "Omni"%string = "Omni"%string) /\
  settings_ sample_omni_optimizer
  = settings_ (sample_optimizer "base_link" 1) /\
  data (control_sequence_ sample_omni_optimizer)
  = data (control_sequence_ (sample_optimizer "base_link" 1)) /\
  controls (state_ sample_omni_optimizer)
  = controls (state_ (sample_optimizer "base_link" 1)) /\
  data (control_sequence_ (reset still_reset sample_omni_optimizer))
  = zeros2 (time_steps (settings_ (sample_optimizer "base_link" 1)))
      (if Optimizer_isHolonomic sample_omni_optimizer then 3%nat else 2%nat).
Proof.
  exact (setMotionModel_layouts still_reset 1 "Omni"
           (sample_optimizer "base_link" 1) sample_omni_optimizer
           sample_setMotionModel_omni).
Defined.

Lemma Forall_col_zeros (k b h c : nat) (bound : R) :
  0 <= bound ->
  Forall (Forall (fun v => Rabs v <= bound)) (col k (zeros3 b h c)).
Proof.
  intros Hb. unfold col, zeros3, zeros2. rewrite !map_repeat.
  apply Forall_forall. intros m Hm. apply repeat_spec in Hm. subst m.
  apply Forall_forall. intros v Hv. apply repeat_spec in Hv. subst v.
  replace (nth k (zeros1 c) 0) with 0; [now rewrite Rabs_R0|].
  unfold zeros1.
  destruct (nth_in_or_default k (repeat 0 c) 0) as [Hin | Hd];
    [now apply repeat_spec in Hin | now rewrite Hd].
Qed.

Lemma applyControlConstraints_keeps_admissible_witness :
  state_ (applyControlConstraints (sample_optimizer "base_link" 1))
  = state_ (sample_optimizer "base_link" 1).
Proof.
  apply (applyControlConstraints_keeps_admissible
           (sample_optimizer "base_link" 1)).
  - left. reflexivity.
  - change (Forall (Forall (fun v => Rabs v <= 1 / 2))
              (col idx_vx (zeros3 2 3 2))).
    apply Forall_col_zeros. lra.
  - change (Forall (Forall (fun v => Rabs v <= 13 / 10))
              (col (idx_wz false) (zeros3 2 3 2))).
    apply Forall_col_zeros. lra.
  - intros H. discriminate H.
Defined.

Lemma shiftControlSequence_repeated_witness :
  let o := sample_optimizer "base_link" 1 in
  let u := data (control_sequence_ o) in
  let u_n := data (control_sequence_ (Nat.iter 2 shiftControlSequence o)) in
  (forall t, (t < length u)%nat ->
     nth t u_n [] = nth (Nat.min (t + 2) (length u - 1)) u []) /\
  ((length u - 1 <= 2)%nat ->
   forall t, (t < length u)%nat -> nth t u_n [] = nth (length u - 1) u []).
Proof.
  apply (shiftControlSequence_repeated 2 (sample_optimizer "base_link" 1)).
  change (2 <= 3)%nat. lia.
Defined.

Lemma updateStateVelocities_initial_row_witness :
  let o := sample_moving_optimizer in
  let sp := speed (state_ o) in
  let h := Optimizer_isHolonomic o in
  Forall (fun m =>
            match m with
            | [] => True
            | row :: _ =>
                ((idx_vx < length row)%nat -> nth idx_vx row 0 = linear_x sp)
                /\ ((idx_wz h < length row)%nat ->
                    nth (idx_wz h) row 0 = angular_z sp)
                /\ (h = true -> (idx_vy < length row)%nat ->
                    nth idx_vy row 0 = linear_y sp)
            end)
    (velocities (updateStateVelocities o (state_ o))).
Proof.
  apply (updateStateVelocities_initial_row sample_moving_optimizer
           (state_ sample_moving_optimizer)).
  reflexivity.
Defined.



